(** * Provider upgrade planning and rollout (clusterctl [upgrader.go])

    A shallow embedding of
    [vendor/sigs.k8s.io/cluster-api/cmd/clusterctl/client/cluster/upgrader.go]:
    the upgrade plan builder ([Plan], [getUpgradePlan]), the custom plan
    validator ([createCustomPlan]) and the rollout ([doUpgrade],
    [scaleDownProvider], [scaleDownDeployment]).

    The collaborators of [providerUpgrader] (inventory, repository, proxy,
    components client) are Go interfaces; they are fields of a record here and
    every theorem holds for all of their implementations.  Calls that act on
    the management cluster run in a state-and-error monad that also records
    the calls in order. *)

From stdpp Require Import base decidable option list sorting strings gmap.
From Stdlib Require Import ZArith Lia Ascii.


(* ------------------------------------------------------------------ *)
(** ** Data model *)

(** Modelled from the spec: [clusterctlv1.ProviderType] is declared in
    provider_type.go of the clusterctl API package, which upgrader.go imports;
    the component type ranges over Core, Bootstrap, ControlPlane and
    Infrastructure. *)
Inductive ProviderType : Type :=
  | CoreProviderType
  | BootstrapProviderType
  | ControlPlaneProviderType
  | InfrastructureProviderType.

#[global] Instance ProviderType_eq_dec : EqDecision ProviderType.
Proof. solve_decision. Defined.

(** Modelled from the spec: [Order()] is declared with [ProviderType]; the
    fixed precedence is Core < Bootstrap < ControlPlane < Infrastructure. *)
Definition Order (t : ProviderType) : nat :=
  match t with
  | CoreProviderType => 0
  | BootstrapProviderType => 1
  | ControlPlaneProviderType => 2
  | InfrastructureProviderType => 3
  end.

(** [clusterctlv1.Provider]: the inventory record of an installed provider. *)
Record Provider : Type := mkProvider {
  ProviderName : string;
  Type_ : ProviderType;
  Version : string;
  Namespace : string
}.

#[global] Instance Provider_eq_dec : EqDecision Provider.
Proof. solve_decision. Defined.

Definition GetProviderType (p : Provider) : ProviderType := Type_ p.

(** Modelled from the spec: [ManifestLabel] is declared with [Provider] in
    the clusterctl API package; the identity of a component is its type, name
    and namespace.  The label is the provider name, prefixed by its type for
    the non-core types. *)
Definition ManifestLabel (p : Provider) : string :=
  match Type_ p with
  | CoreProviderType => ProviderName p
  | BootstrapProviderType => "bootstrap-" +:+ ProviderName p
  | ControlPlaneProviderType => "control-plane-" +:+ ProviderName p
  | InfrastructureProviderType => "infrastructure-" +:+ ProviderName p
  end.

(** Modelled from the spec: [InstanceName] is declared with [Provider]; it
    is the namespace and the manifest label, which together give the
    identity of the component. *)
Definition InstanceName (p : Provider) : string :=
  Namespace p +:+ "/" +:+ ManifestLabel p.

(** Modelled from the spec: [ProviderList.FilterCore()] is declared with
    [Provider]; it keeps the components of type Core. *)
Definition FilterCore (items : list Provider) : list Provider :=
  filter (λ p, GetProviderType p = CoreProviderType) items.

(** [UpgradeItem]: a provider with its target version; the empty string
    stands for no target version. *)
Record UpgradeItem : Type := mkUpgradeItem {
  UpgradeItem_Provider : Provider;
  NextVersion : string
}.

#[global] Instance UpgradeItem_eq_dec : EqDecision UpgradeItem.
Proof. solve_decision. Defined.

(** [UpgradeRef]: the string identifying the upgrade item. *)
Definition UpgradeRef (u : UpgradeItem) : string :=
  InstanceName (UpgradeItem_Provider u).

(** [UpgradePlan]. *)
Record UpgradePlan : Type := mkUpgradePlan {
  Contract : string;
  Providers : list UpgradeItem
}.

#[global] Instance UpgradePlan_eq_dec : EqDecision UpgradePlan.
Proof. solve_decision. Defined.

(** [isPartialUpgrade]: the range loop returning true at the first item
    without a target version. *)
Fixpoint isPartialUpgrade_loop (items : list UpgradeItem) : bool :=
  match items with
  | [] => false
  | i :: rest =>
      if bool_decide (NextVersion i = "") then true
      else isPartialUpgrade_loop rest
  end.

Definition isPartialUpgrade (u : UpgradePlan) : bool :=
  isPartialUpgrade_loop (Providers u).

(** The drop rule in the words of the specification: a candidate plan is kept
    unless it is partial and its contract differs from the current contract
    of the core provider. *)
Definition keptPlan (current : string) (plan : UpgradePlan) : Prop :=
  ¬ (isPartialUpgrade plan = true ∧ Contract plan ≠ current).

#[global] Instance keptPlan_dec current plan : Decision (keptPlan current plan).
Proof. unfold keptPlan; apply _. Defined.

(** Errors.  The messages of the source are kept as constructors carrying the
    values the message is formatted with; [ErrExternal] is an error handed
    back by a collaborator. *)
Inductive error : Type :=
  | ErrExternal (msg : string)
  | ErrNotOneCore (found : nat)
  | ErrUnsupportedContract (supported requested : string)
  | ErrUnknownProvider (instanceName : string)
  | ErrContractMismatch (instanceName contract targetContract : string)
  | ErrLaggingProvider (instanceName contract targetContract : string)
  | ErrParseTargetVersion (instanceName : string) (cause : error)
  | ErrNoReleaseSeries (targetVersion instanceName : string)
  | ErrStillHasReplicas (replicas : Z)
  | ErrWrap (msg : string) (cause : error).

#[global] Instance error_eq_dec : EqDecision error.
Proof. solve_decision. Defined.

Inductive result (A : Type) : Type :=
  | Ok (a : A)
  | Err (e : error).
Arguments Ok {A} a.
Arguments Err {A} e.

(** [errors.Wrapf] of github.com/pkg/errors annotates an error with a message
    and, by its documentation, returns nil when the error it is given is
    nil.  A Go [error] value that may be nil is an [option error]. *)
Definition errors_Wrapf (err : option error) (msg : string) : option error :=
  match err with
  | None => None
  | Some e => Some (ErrWrap msg e)
  end.

(** A Go return of a value together with an [error]: the caller sees a
    failure exactly when the error is not nil. *)
Definition go_return {A : Type} (a : A) (err : option error) : result A :=
  match err with
  | None => Ok a
  | Some e => Err e
  end.

#[global] Instance result_ret : MRet result := λ A a, Ok a.
#[global] Instance result_bind : MBind result := λ A B f m,
  match m with
  | Ok a => f a
  | Err e => Err e
  end.

(** [version.Version] of k8s.io/apimachinery: the parsed semantic version. *)
Record SemVersion : Type := mkSemVersion {
  sv_Major : N;
  sv_Minor : N;
  sv_Patch : N
}.

#[global] Instance SemVersion_eq_dec : EqDecision SemVersion.
Proof. solve_decision. Defined.

(** Modelled from the spec: [clusterctlv1.ReleaseSeries] is declared in the
    clusterctl API package; a release series maps a major/minor version range
    to exactly one contract. *)
Record ReleaseSeries : Type := mkReleaseSeries {
  rs_Major : N;
  rs_Minor : N;
  rs_Contract : string
}.

Definition Metadata : Type := list ReleaseSeries.

(** Modelled from the spec: [Metadata.GetReleaseSeriesForVersion] is declared
    in the clusterctl API package; the lookup returns the release series whose
    range contains the version, if there is one. *)
Fixpoint GetReleaseSeriesForVersion (m : Metadata) (v : SemVersion)
  : option ReleaseSeries :=
  match m with
  | [] => None
  | releaseSeries :: rest =>
      if bool_decide (sv_Major v = rs_Major releaseSeries)
         && bool_decide (sv_Minor v = rs_Minor releaseSeries)
      then Some releaseSeries
      else GetReleaseSeriesForVersion rest v
  end.

(** [upgradeInfo], declared in upgrade_info.go of the same package.
    [Plan] and [getUpgradePlan] only call its methods
    [getContractsForUpgrade] and [getLatestNextVersion] and read
    [currentContract] and [metadata]; the two methods are fields, so that the
    theorems hold whatever they compute. *)
Record upgradeInfo : Type := mkUpgradeInfo {
  metadata : Metadata;
  currentContract : string;
  getContractsForUpgrade : list string;
  getLatestNextVersion : string → option SemVersion
}.

(* ------------------------------------------------------------------ *)
(** ** The monad of calls acting on the management cluster *)

(** [appsv1.Deployment], with the fields the rollout reads and writes.
    [Spec.Replicas] is a pointer in Go. *)
Record Deployment : Type := mkDeployment {
  d_Name : string;
  d_Namespace : string;
  Spec_Replicas : option Z;
  Status_Replicas : Z
}.

#[global] Instance Deployment_eq_dec : EqDecision Deployment.
Proof. solve_decision. Defined.

(** [repository.ComponentsOptions], with the fields [getUpgradeComponents]
    sets. *)
Record ComponentsOptions : Type := mkComponentsOptions {
  co_Version : string;
  co_TargetNamespace : string
}.

#[global] Instance ComponentsOptions_eq_dec : EqDecision ComponentsOptions.
Proof. solve_decision. Defined.

(** [DeleteOptions] of the components client. *)
Record DeleteOptions : Type := mkDeleteOptions {
  do_Provider : Provider;
  IncludeNamespace : bool;
  IncludeCRDs : bool;
  SkipInventory : bool
}.

#[global] Instance DeleteOptions_eq_dec : EqDecision DeleteOptions.
Proof. solve_decision. Defined.

(** [wait.Backoff], of which the retry helper reads [Steps]. *)
Record Backoff : Type := mkBackoff {
  Steps : nat
}.

(** [repository.Components], with the getters of the identity of what it
    installs. *)
Record Components : Type := mkComponents {
  c_Name : string;
  c_Type : ProviderType;
  c_Version : string;
  c_TargetNamespace : string
}.

#[global] Instance Components_eq_dec : EqDecision Components.
Proof. solve_decision. Defined.

(** The calls that reach the management cluster or the provider repository,
    in the order they are made.  [EvScalingDown] is the [log.Info] line at the
    entry of [scaleDownProvider]. *)
Inductive Event : Type :=
  | EvScalingDown (p : Provider)
  | EvListDeployments (p : Provider)
  | EvGetDeployment (name namespace : string)
  | EvUpdateDeployment (d : Deployment)
  | EvGetComponents (name : string) (o : ComponentsOptions)
  | EvDelete (o : DeleteOptions)
  | EvInstall (c : Components)
  | EvDeleteWebhookNamespace.

#[global] Instance Event_eq_dec : EqDecision Event.
Proof. solve_decision. Defined.

(** A computation on the cluster state [W]: its outcome, the state it leaves
    and the calls it made. *)
Definition M (W A : Type) : Type := W → result A * W * list Event.

#[global] Instance M_ret {W} : MRet (M W) := λ A a w, (Ok a, w, []).
#[global] Instance M_bind {W} : MBind (M W) := λ A B f m w,
  match m w with
  | (Ok a, w', t) =>
      let '(r, w'', t') := f a w' in (r, w'', t ++ t')
  | (Err e, w', t) => (Err e, w', t)
  end.

Definition outcome {W A} (r : result A * W * list Event) : result A := r.1.1.
Definition final {W A} (r : result A * W * list Event) : W := r.1.2.
Definition trace {W A} (r : result A * W * list Event) : list Event := r.2.

(** A collaborator call that may change the cluster, recorded as [ev]. *)
Definition call {W A} (ev : Event) (op : W → result A * W) : M W A :=
  λ w, let '(r, w') := op w in (r, w', [ev]).

(** A read-only lookup, which leaves no record. *)
Definition lookup_ {W A} (op : W → result A) : M W A :=
  λ w, (op w, w, []).

(** A Go function returning only an [error]. *)
Definition of_error {W} (op : W → option error * W) : W → result () * W :=
  λ w, let '(e, w') := op w in (go_return () e, w').

Definition fail {W A} (e : error) : M W A := λ w, (Err e, w, []).

(** Every call a computation records satisfies [P], whatever the state it
    starts in. *)
Definition emits {W A} (P : Event → Prop) (m : M W A) : Prop :=
  ∀ w, Forall P (trace (m w)).

(** [for _, x := range xs { if err := body(x); err != nil { return err } }] *)
Fixpoint for_range {W A} (xs : list A) (body : A → M W ()) : M W () :=
  match xs with
  | [] => mret ()
  | x :: rest => body x ≫= λ _, for_range rest body
  end.

(* ------------------------------------------------------------------ *)
(** ** Library functions the upgrader calls *)

(** The requirement of [sort.Slice] on its [less] function. *)
Definition StrictWeakOrder {A : Type} (less : A → A → bool) : Prop :=
  (∀ a, less a a = false)
  ∧ (∀ a b c, less a b = true → less b c = true → less a c = true)
  ∧ (∀ a b c, less a b = false → less b a = false →
              less b c = false → less c b = false →
              less a c = false ∧ less c a = false).

(** [sort.Slice] of the Go standard library.  The sort is not stable and its
    algorithm is not fixed by its documentation: an implementation is any
    function that returns a rearrangement of the slice in which no element is
    less than the one before it. *)
Class SliceSorter : Type := {
  sort_Slice : ∀ {A : Type}, (A → A → bool) → list A → list A;
  sort_Slice_Permutation :
    ∀ {A : Type} (less : A → A → bool) (l : list A), sort_Slice less l ≡ₚ l;
  sort_Slice_Sorted :
    ∀ {A : Type} (less : A → A → bool) (l : list A),
      StrictWeakOrder less →
      Sorted (λ a b, less b a = false) (sort_Slice less l)
}.

(** The collaborators of [providerUpgrader], each with the methods that
    upgrader.go calls.  [W] is the state of the management cluster (and of
    whatever else the collaborators depend on); lookups read it, the calls
    of the proxy client, of the repository and of the components client may
    also change it. *)
Record providerUpgrader (W ConfigProvider RepositoryClient : Type) : Type := {
  (* providerInventory *)
  providerInventory_List : W → result (list Provider);
  providerInventory_CheckSingleProviderInstance : W → option error;
  (* upgrade_info.go *)
  getUpgradeInfo : W → Provider → result upgradeInfo;
  (* configClient and repositoryClientFactory *)
  configClient_Providers_Get :
    W → string → ProviderType → result ConfigProvider;
  repositoryClientFactory : W → ConfigProvider → result RepositoryClient;
  Components_Get :
    RepositoryClient → ComponentsOptions → W → result Components * W;
  (* proxy and the client it creates *)
  proxy_NewClient : W → option error;
  client_List : Provider → W → result (list Deployment) * W;
  client_Get : string → string → W → result Deployment * W;
  client_Update : Deployment → W → option error * W;
  (* providerComponents and the installer *)
  providerComponents_Delete : DeleteOptions → W → option error * W;
  providerComponents_DeleteWebhookNamespace : W → option error * W;
  installComponentsAndUpdateInventory : Components → W → option error * W
}.

Arguments providerInventory_List {W ConfigProvider RepositoryClient} _ _.
Arguments providerInventory_CheckSingleProviderInstance
  {W ConfigProvider RepositoryClient} _ _.
Arguments getUpgradeInfo {W ConfigProvider RepositoryClient} _ _ _.
Arguments configClient_Providers_Get {W ConfigProvider RepositoryClient} _ _ _ _.
Arguments repositoryClientFactory {W ConfigProvider RepositoryClient} _ _ _.
Arguments Components_Get {W ConfigProvider RepositoryClient} _ _ _ _.
Arguments proxy_NewClient {W ConfigProvider RepositoryClient} _ _.
Arguments client_List {W ConfigProvider RepositoryClient} _ _ _.
Arguments client_Get {W ConfigProvider RepositoryClient} _ _ _ _.
Arguments client_Update {W ConfigProvider RepositoryClient} _ _ _.
Arguments providerComponents_Delete {W ConfigProvider RepositoryClient} _ _ _.
Arguments providerComponents_DeleteWebhookNamespace
  {W ConfigProvider RepositoryClient} _ _.
Arguments installComponentsAndUpdateInventory
  {W ConfigProvider RepositoryClient} _ _ _.

(* ------------------------------------------------------------------ *)
(** ** The upgrader *)

Section Upgrader.

Context {W ConfigProvider RepositoryClient : Type}.
Context `{SliceSorter}.

(** [clusterv1.GroupVersion.Version]: the contract this release of
    clusterctl upgrades to.  The constant is declared in the Cluster API
    types package; the upgrader only compares against it. *)
Variable GroupVersion_Version : string.

(** [version.ParseSemantic] of k8s.io/apimachinery. *)
Variable ParseSemantic : string → result SemVersion.

(** [versionTag], declared next to [upgradeInfo]: the tag of a version, for
    a version that may be nil. *)
Variable versionTag : option SemVersion → string.

(** Which errors the retry helper treats as transient. *)
Variable isRetryable : error → bool.

Variable u : providerUpgrader W ConfigProvider RepositoryClient.

(** *** Plan builder *)

(** [getUpgradePlan]; [upgradeItems] is the slice being appended to. *)
Fixpoint getUpgradePlan_loop (w : W) (providers : list Provider)
    (contract : string) (upgradeItems : list UpgradeItem)
  : result (list UpgradeItem) :=
  match providers with
  | [] => Ok upgradeItems
  | provider :: rest =>
      providerUpgradeInfo ← getUpgradeInfo u w provider;
      let nextVersion := getLatestNextVersion providerUpgradeInfo contract in
      getUpgradePlan_loop w rest contract
        (upgradeItems ++ [ {| UpgradeItem_Provider := provider;
                              NextVersion := versionTag nextVersion |} ])
  end.

Definition getUpgradePlan (w : W) (providers : list Provider)
    (contract : string) : result UpgradePlan :=
  upgradeItems ← getUpgradePlan_loop w providers contract [];
  Ok {| Contract := contract; Providers := upgradeItems |}.

(** The loop of [Plan] over [contractsForUpgrade]; [ret] is the slice of
    plans being appended to. *)
Fixpoint Plan_loop (w : W) (items : list Provider)
    (coreUpgradeInfo : upgradeInfo) (contractsForUpgrade : list string)
    (ret : list UpgradePlan) : result (list UpgradePlan) :=
  match contractsForUpgrade with
  | [] => Ok ret
  | contract :: rest =>
      upgradePlan ← getUpgradePlan w items contract;
      if isPartialUpgrade upgradePlan
         && bool_decide (currentContract coreUpgradeInfo ≠ contract)
      then Plan_loop w items coreUpgradeInfo rest ret
      else Plan_loop w items coreUpgradeInfo rest (ret ++ [upgradePlan])
  end.

Definition Plan (w : W) : result (list UpgradePlan) :=
  providerList ← providerInventory_List u w;
  let coreProviders := FilterCore providerList in
  match coreProviders with
  | [coreProvider] =>
      coreUpgradeInfo ← getUpgradeInfo u w coreProvider;
      (* past the check of [err], the variable holds nil *)
      let err : option error := None in
      let contractsForUpgrade := getContractsForUpgrade coreUpgradeInfo in
      if bool_decide (length contractsForUpgrade = 0) then
        go_return []
          (errors_Wrapf err
             ("invalid metadata: unable to find the API Version of Cluster API (contract) supported by the "
              +:+ InstanceName coreProvider +:+ " provider"))
      else
        Plan_loop w providerList coreUpgradeInfo contractsForUpgrade []
  | _ => Err (ErrNotOneCore (length coreProviders))
  end.

(** *** Custom plan validator *)

(** [getProviderContractByVersion]. *)
Definition getProviderContractByVersion (w : W) (provider : Provider)
    (targetVersion : string) : result string :=
  match ParseSemantic targetVersion with
  | Err err => Err (ErrParseTargetVersion (InstanceName provider) err)
  | Ok targetSemVersion =>
      upgradeInfo ← getUpgradeInfo u w provider;
      match GetReleaseSeriesForVersion (metadata upgradeInfo)
              targetSemVersion with
      | None =>
          Err (ErrNoReleaseSeries targetVersion (InstanceName provider))
      | Some releaseSeries => Ok (rs_Contract releaseSeries)
      end
  end.

(** The loop of [createCustomPlan] that looks for the core provider among
    the upgrade items; it breaks at the first match. *)
Fixpoint targetCoreProviderVersion_loop (coreProvider : Provider)
    (upgradeItems : list UpgradeItem) (targetCoreProviderVersion : string)
  : string :=
  match upgradeItems with
  | [] => targetCoreProviderVersion
  | providerToUpgrade :: rest =>
      if bool_decide
           (InstanceName (UpgradeItem_Provider providerToUpgrade)
            = InstanceName coreProvider)
      then NextVersion providerToUpgrade
      else targetCoreProviderVersion_loop coreProvider rest
             targetCoreProviderVersion
  end.

(** The inner loop matching an upgrade item with a provider of the
    management cluster; [None] is the nil pointer. *)
Fixpoint matchProvider (items : list Provider) (instanceName : string)
  : option Provider :=
  match items with
  | [] => None
  | p :: rest =>
      if bool_decide (InstanceName p = instanceName) then Some p
      else matchProvider rest instanceName
  end.

(** The loop over the upgrade items: it appends to [upgradePlan.Providers]
    and inserts into [upgradeInstanceNames]. *)
Fixpoint upgradeItems_loop (w : W) (items : list Provider)
    (targetContract : string) (upgradeItems : list UpgradeItem)
    (upgradePlan : UpgradePlan) (upgradeInstanceNames : gset string)
  : result (UpgradePlan * gset string) :=
  match upgradeItems with
  | [] => Ok (upgradePlan, upgradeInstanceNames)
  | upgradeItem :: rest =>
      let name := InstanceName (UpgradeItem_Provider upgradeItem) in
      match matchProvider items name with
      | None => Err (ErrUnknownProvider name)
      | Some provider =>
          contract ← getProviderContractByVersion w provider
                       (NextVersion upgradeItem);
          if bool_decide (contract ≠ targetContract) then
            Err (ErrContractMismatch name contract targetContract)
          else
            upgradeItems_loop w items targetContract rest
              {| Contract := Contract upgradePlan;
                 Providers := Providers upgradePlan ++ [upgradeItem] |}
              (upgradeInstanceNames ∪ {[ name ]})
      end
  end.

(** The loop over the providers of the management cluster that are not in
    the upgrade plan. *)
Fixpoint lagging_loop (w : W) (items : list Provider)
    (targetContract : string) (upgradeInstanceNames : gset string)
  : result () :=
  match items with
  | [] => Ok ()
  | provider :: rest =>
      if bool_decide (InstanceName provider ∈ upgradeInstanceNames) then
        lagging_loop w rest targetContract upgradeInstanceNames
      else
        contract ← getProviderContractByVersion w provider
                     (Version provider);
        if bool_decide (contract ≠ targetContract) then
          Err (ErrLaggingProvider (InstanceName provider) contract
                 targetContract)
        else lagging_loop w rest targetContract upgradeInstanceNames
  end.

Definition createCustomPlan (w : W) (upgradeItems : list UpgradeItem)
  : result UpgradePlan :=
  providerList ← providerInventory_List u w;
  let coreProviders := FilterCore providerList in
  match coreProviders with
  | [coreProvider] =>
      let targetCoreProviderVersion :=
        targetCoreProviderVersion_loop coreProvider upgradeItems
          (Version coreProvider) in
      targetContract ← getProviderContractByVersion w coreProvider
                         targetCoreProviderVersion;
      if bool_decide (targetContract ≠ GroupVersion_Version) then
        Err (ErrUnsupportedContract GroupVersion_Version targetContract)
      else
        '(upgradePlan, upgradeInstanceNames) ←
          upgradeItems_loop w providerList targetContract upgradeItems
            {| Contract := targetContract; Providers := [] |} ∅;
        _ ← lagging_loop w providerList targetContract
              upgradeInstanceNames;
        Ok upgradePlan
  | _ => Err (ErrNotOneCore (length coreProviders))
  end.

(** *** Rollout *)

(** [errors.Wrapf] around the error of a computation. *)
Definition wrapf {A : Type} (msg : string) (m : M W A) : M W A :=
  λ w, match m w with
       | (Err e, w', t) => (Err (ErrWrap msg e), w', t)
       | r => r
       end.

(** A [log.Info] line that is kept in the record of calls. *)
Definition log_Info (ev : Event) : M W () := λ w, (Ok (), w, [ev]).

(** [getUpgradeComponents]. *)
Definition getUpgradeComponents (provider : UpgradeItem) : M W Components :=
  let p := UpgradeItem_Provider provider in
  configRepository ←
    lookup_ (λ w, configClient_Providers_Get u w (ProviderName p)
                    (GetProviderType p));
  providerRepository ←
    lookup_ (λ w, repositoryClientFactory u w configRepository);
  let options := {| co_Version := NextVersion provider;
                    co_TargetNamespace := Namespace p |} in
  call (EvGetComponents (ProviderName p) options)
       (Components_Get u providerRepository options).

(** Modelled from the spec: [retryWithExponentialBackoff] is declared in
    client.go of the same package; it is a bounded retry with a fixed
    attempt budget, in which transient errors are retried and anything
    else, or the exhaustion of the budget, is fatal with the last cause
    attached. *)
Fixpoint retry_loop (steps : nat) (operation : M W ()) : M W () :=
  match steps with
  | 0 => fail (ErrExternal "timed out waiting for the condition")
  | S n => λ w,
      match operation w with
      | (Ok _, w', t) => (Ok (), w', t)
      | (Err e, w', t) =>
          if isRetryable e && bool_decide (n ≠ 0) then
            let '(r, w'', t') := retry_loop n operation w' in
            (r, w'', t ++ t')
          else (Err (ErrWrap "action failed" e), w', t)
      end
  end.

Definition retryWithExponentialBackoff (opts : Backoff)
    (operation : M W ()) : M W () :=
  retry_loop (Steps opts) operation.

(** Modelled from the spec: [newWriteBackoff] is declared in client.go; the
    attempt budget of a write is small and fixed, ten attempts. *)
Definition newWriteBackoff : Backoff := {| Steps := 10 |}.

(** [scaleDownDeployment]. *)
Definition scaleDownDeployment (deploy : Deployment) : M W () :=
  _ ← wrapf "failed to scale down Deployment"
        (retryWithExponentialBackoff newWriteBackoff
           (deployment ←
              wrapf "failed to get Deployment"
                (call (EvGetDeployment (d_Name deploy) (d_Namespace deploy))
                   (client_Get u (d_Name deploy) (d_Namespace deploy)));
            if bool_decide (Spec_Replicas deployment = Some 0%Z) then
              mret ()
            else
              let deployment :=
                {| d_Name := d_Name deployment;
                   d_Namespace := d_Namespace deployment;
                   Spec_Replicas := Some 0%Z;
                   Status_Replicas := Status_Replicas deployment |} in
              wrapf "failed to update Deployment"
                (call (EvUpdateDeployment deployment)
                   (of_error (client_Update u deployment)))));
  let deploymentScaleToZeroBackOff := {| Steps := 60 |} in
  wrapf "failed to wait until Deployment is scaled down"
    (retryWithExponentialBackoff deploymentScaleToZeroBackOff
       (deployment ←
          wrapf "failed to get Deployment"
            (call (EvGetDeployment (d_Name deploy) (d_Namespace deploy))
               (client_Get u (d_Name deploy) (d_Namespace deploy)));
        if bool_decide (Status_Replicas deployment = 0%Z) then mret ()
        else fail (ErrStillHasReplicas (Status_Replicas deployment)))).

(** [scaleDownProvider]. *)
Definition scaleDownProvider (provider : Provider) : M W () :=
  _ ← log_Info (EvScalingDown provider);
  _ ← lookup_ (λ w, go_return () (proxy_NewClient u w));
  deploymentList ←
    wrapf "failed to list Deployments for provider"
      (call (EvListDeployments provider) (client_List u provider));
  for_range deploymentList scaleDownDeployment.

(** The three stages of [doUpgrade] that follow the sort, on the sorted
    slice [providers]. *)
Definition scaleDownAll (providers : list UpgradeItem) : M W () :=
  for_range providers (λ upgradeItem,
    if bool_decide (NextVersion upgradeItem = "") then mret ()
    else scaleDownProvider (UpgradeItem_Provider upgradeItem)).

Definition replaceAll (providers : list UpgradeItem) : M W () :=
  for_range providers (λ upgradeItem,
    if bool_decide (NextVersion upgradeItem = "") then mret ()
    else
      components ← getUpgradeComponents upgradeItem;
      _ ← (let o := {| do_Provider := UpgradeItem_Provider upgradeItem;
                       IncludeNamespace := false;
                       IncludeCRDs := false;
                       SkipInventory := true |} in
           call (EvDelete o) (of_error (providerComponents_Delete u o)));
      call (EvInstall components)
           (of_error (installComponentsAndUpdateInventory u components))).

Definition deleteWebhookNamespace (upgradePlan : UpgradePlan) : M W () :=
  if bool_decide (Contract upgradePlan = GroupVersion_Version) then
    call EvDeleteWebhookNamespace
         (of_error (providerComponents_DeleteWebhookNamespace u))
  else mret ().

Definition checkSingleProviderInstance (upgradePlan : UpgradePlan)
  : M W () :=
  if bool_decide (Contract upgradePlan = GroupVersion_Version) then
    lookup_ (λ w, go_return ()
                    (providerInventory_CheckSingleProviderInstance u w))
  else mret ().

(** The [less] function handed to [sort.Slice]. *)
Definition lessByOrder (a b : UpgradeItem) : bool :=
  bool_decide (Order (GetProviderType (UpgradeItem_Provider a))
               < Order (GetProviderType (UpgradeItem_Provider b))).

(** What [doUpgrade] does after the sort: scale down, replace, clean up. *)
Definition upgradePhases (upgradePlan : UpgradePlan)
    (providers : list UpgradeItem) : M W () :=
  _ ← scaleDownAll providers;
  _ ← replaceAll providers;
  deleteWebhookNamespace upgradePlan.

(** [doUpgrade].  The plan is passed by pointer and [providers] shares the
    backing array of [upgradePlan.Providers], so the sort also rearranges
    the caller's plan: the second component of the result is the plan as
    the caller finds it afterwards. *)
Definition doUpgrade (upgradePlan : UpgradePlan) (w : W)
  : (result () * W * list Event) * UpgradePlan :=
  match checkSingleProviderInstance upgradePlan w with
  | (Err err, w', t) => ((Err err, w', t), upgradePlan)
  | (Ok _, w', t) =>
      let providers := sort_Slice lessByOrder (Providers upgradePlan) in
      let upgradePlan := {| Contract := Contract upgradePlan;
                            Providers := providers |} in
      let '(r, w'', t') := upgradePhases upgradePlan providers w' in
      ((r, w'', t ++ t'), upgradePlan)
  end.

(** [ApplyPlan]. *)
Definition ApplyPlan (contract : string) (w : W)
  : result () * W * list Event :=
  if bool_decide (contract ≠ GroupVersion_Version) then
    (Err (ErrUnsupportedContract GroupVersion_Version contract), w, [])
  else
    match providerInventory_List u w with
    | Err err => (Err err, w, [])
    | Ok providerList =>
        match getUpgradePlan w providerList contract with
        | Err err => (Err err, w, [])
        | Ok upgradePlan => (doUpgrade upgradePlan w).1
        end
    end.

(** [ApplyCustomPlan]. *)
Definition ApplyCustomPlan (upgradeItems : list UpgradeItem) (w : W)
  : result () * W * list Event :=
  match createCustomPlan w upgradeItems with
  | Err err => (Err err, w, [])
  | Ok upgradePlan => (doUpgrade upgradePlan w).1
  end.

End Upgrader.

(** [upgradeItem.InstanceName()]: the method of the embedded provider. *)
Definition itemName (i : UpgradeItem) : string :=
  InstanceName (UpgradeItem_Provider i).

Section ValidatorChecks.

Context {W ConfigProvider RepositoryClient : Type}.
Variable ParseSemantic : string → result SemVersion.
Variable u : providerUpgrader W ConfigProvider RepositoryClient.

(** A requested item passes both checks of the loop over the upgrade items:
    a provider of the management cluster matches it and its target version
    resolves to the target contract. *)
Definition acceptedItem (w : W) (items : list Provider)
    (targetContract : string) (upgradeItem : UpgradeItem) : Prop :=
  ∃ provider,
    matchProvider items (itemName upgradeItem) = Some provider
    ∧ getProviderContractByVersion ParseSemantic u w provider
        (NextVersion upgradeItem)
      = Ok targetContract.

(** A provider of the management cluster passes the loop over the providers
    that are not in the plan: it is in the plan, or its current version
    resolves to the target contract. *)
Definition compliantProvider (w : W) (targetContract : string)
    (names : gset string) (provider : Provider) : Prop :=
  InstanceName provider ∈ names
  ∨ getProviderContractByVersion ParseSemantic u w provider (Version provider)
    = Ok targetContract.

End ValidatorChecks.

(** Modelled from the spec: the error of [CheckSingleProviderInstance], the
    multiple-instances-not-supported error. *)
Definition ErrMultipleInstancesNotSupported : error :=
  ErrExternal "detected multiple instances of the same provider".

(** Modelled from the spec: [CheckSingleProviderInstance] is declared with the
    inventory client, in inventory.go of the same package; it verifies that
    at most one instance of each component exists fleet-wide and fails with
    the multiple-instances-not-supported error otherwise.  A component is
    told by its manifest label. *)
Definition CheckSingleProviderInstance (items : list Provider)
  : option error :=
  if bool_decide (NoDup (ManifestLabel <$> items)) then None
  else Some ErrMultipleInstancesNotSupported.

(* ------------------------------------------------------------------ *)
(** ** Classification of the recorded calls *)

(** Calls made while draining (Phase A). *)
Definition isDrain (ev : Event) : bool :=
  match ev with
  | EvScalingDown _ | EvListDeployments _ | EvGetDeployment _ _
  | EvUpdateDeployment _ => true
  | _ => false
  end.

(** Calls made while replacing (Phase B): fetch, delete, install. *)
Definition isReplace (ev : Event) : bool :=
  match ev with
  | EvGetComponents _ _ | EvDelete _ | EvInstall _ => true
  | _ => false
  end.

(** The providers whose drain was entered, in order. *)
Definition drained (t : list Event) : list Provider :=
  omap (λ ev, match ev with EvScalingDown p => Some p | _ => None end) t.

(** The delete options of the recorded deletes, in order. *)
Definition deleteOptions (t : list Event) : list DeleteOptions :=
  omap (λ ev, match ev with EvDelete o => Some o | _ => None end) t.

(** The providers whose old components were deleted, in order. *)
Definition deleted (t : list Event) : list Provider :=
  do_Provider <$> deleteOptions t.

(** The options [doUpgrade] deletes the old components of an item with. *)
Definition preservingDelete (i : UpgradeItem) : DeleteOptions :=
  {| do_Provider := UpgradeItem_Provider i;
     IncludeNamespace := false;
     IncludeCRDs := false;
     SkipInventory := true |}.

(** The order of the type of the provider of an upgrade item. *)
Definition itemOrder (i : UpgradeItem) : nat :=
  Order (GetProviderType (UpgradeItem_Provider i)).

(** Calls made inside a drain, after the log line that opens it. *)
Definition isDrainCall (ev : Event) : bool :=
  match ev with
  | EvListDeployments _ | EvGetDeployment _ _ | EvUpdateDeployment _ => true
  | _ => false
  end.

(** The upgrade items with a target version. *)
Definition withNextVersion (items : list UpgradeItem) : list UpgradeItem :=
  filter (λ i, NextVersion i ≠ "") items.

(* ------------------------------------------------------------------ *)
(** ** An insertion sort as [sort.Slice] *)

Fixpoint insertSorted {A : Type} (less : A → A → bool) (x : A) (l : list A)
  : list A :=
  match l with
  | [] => [x]
  | y :: rest =>
      if less x y then x :: y :: rest
      else y :: insertSorted less x rest
  end.

Definition insertionSort {A : Type} (less : A → A → bool) (l : list A)
  : list A :=
  foldr (insertSorted less) [] l.

(* ------------------------------------------------------------------ *)
(** ** A management cluster held in memory

    An implementation of the collaborators over plain data, used to run the
    upgrader on concrete fleets. *)

Module Fake.

(** What a provider repository publishes: its release series and the
    versions released. *)
Record Repository : Type := mkRepository {
  repo_Label : string;
  repo_Metadata : Metadata;
  repo_Versions : list SemVersion
}.

Record Cluster : Type := mkCluster {
  inventory : list Provider;
  repositories : list Repository;
  deployments : list (string * Deployment);
  webhookNamespace : bool
}.

(** Versions are written vMAJOR.MINOR.PATCH with one digit each. *)
Definition digit (a : Ascii.ascii) : option N :=
  let n := Ascii.N_of_ascii a in
  if bool_decide (48 ≤ n ≤ 57)%N then Some (n - 48)%N else None.

Definition ParseSemantic (s : string) : result SemVersion :=
  match s with
  | String "v"%char (String a (String "."%char (String b (String "."%char
      (String c EmptyString))))) =>
      match digit a, digit b, digit c with
      | Some x, Some y, Some z => Ok (mkSemVersion x y z)
      | _, _, _ => Err (ErrExternal "could not parse version")
      end
  | _ => Err (ErrExternal "could not parse version")
  end.

Definition showDigit (n : N) : string :=
  String (Ascii.ascii_of_N (48 + n)) EmptyString.

Definition versionTag (v : option SemVersion) : string :=
  match v with
  | None => ""
  | Some v =>
      "v" +:+ showDigit (sv_Major v) +:+ "." +:+ showDigit (sv_Minor v)
      +:+ "." +:+ showDigit (sv_Patch v)
  end.

Definition versionLt (a b : SemVersion) : bool :=
  bool_decide (sv_Major a < sv_Major b)%N
  || bool_decide (sv_Major a = sv_Major b)
     && (bool_decide (sv_Minor a < sv_Minor b)%N
         || bool_decide (sv_Minor a = sv_Minor b)
            && bool_decide (sv_Patch a < sv_Patch b)%N).

Definition contractOf (m : Metadata) (v : SemVersion) : option string :=
  rs_Contract <$> GetReleaseSeriesForVersion m v.

(** Modelled from the spec: [getLatestNextVersion] is declared with
    [upgradeInfo]; it scans the newer versions and returns the highest one
    whose contract equals the requested contract, or none. *)
Definition latestNextVersion (m : Metadata) (newer : list SemVersion)
    (contract : string) : option SemVersion :=
  foldl (λ best v,
           if bool_decide (contractOf m v = Some contract) then
             match best with
             | Some b => if versionLt b v then Some v else best
             | None => Some v
             end
           else best)
        None newer.

(** Modelled from the spec: [getContractsForUpgrade] is declared with
    [upgradeInfo]; the candidate contracts are the current contract and
    the contract of every strictly newer version. *)
Definition contractsForUpgrade (m : Metadata) (current : string)
    (newer : list SemVersion) : list string :=
  remove_dups (current :: omap (contractOf m) newer).

Definition findRepository (w : Cluster) (label : string)
  : option Repository :=
  list_find (λ r, repo_Label r = label) (repositories w) ≫= λ x, Some x.2.

(** Modelled from the spec: [getUpgradeInfo] is declared in
    upgrade_info.go; it fetches the release metadata of the component,
    fails if the source cannot be reached, computes the current contract
    from the release series containing the installed version, fails if no
    series matches, and produces the strictly newer versions. *)
Definition resolve (w : Cluster) (p : Provider) : result upgradeInfo :=
  match findRepository w (ManifestLabel p) with
  | None => Err (ErrExternal "failed to get provider metadata")
  | Some r =>
      currentVersion ← ParseSemantic (Version p);
      match contractOf (repo_Metadata r) currentVersion with
      | None => Err (ErrExternal "no matching release series")
      | Some current =>
          let newer := filter (λ v, versionLt currentVersion v = true)
                              (repo_Versions r) in
          Ok {| metadata := repo_Metadata r;
                currentContract := current;
                getContractsForUpgrade :=
                  contractsForUpgrade (repo_Metadata r) current newer;
                getLatestNextVersion :=
                  latestNextVersion (repo_Metadata r) newer |}
      end
  end.

Definition ownedBy (p : Provider) (d : string * Deployment) : Prop :=
  d.1 = ManifestLabel p ∧ d_Namespace d.2 = Namespace p.

#[global] Instance ownedBy_dec p d : Decision (ownedBy p d).
Proof. unfold ownedBy; apply _. Defined.

Definition sameKey (name namespace : string) (d : string * Deployment)
  : Prop :=
  d_Name d.2 = name ∧ d_Namespace d.2 = namespace.

#[global] Instance sameKey_dec n ns d : Decision (sameKey n ns d).
Proof. unfold sameKey; apply _. Defined.

Definition withDeployments (w : Cluster) (ds : list (string * Deployment))
  : Cluster :=
  {| inventory := inventory w; repositories := repositories w;
     deployments := ds; webhookNamespace := webhookNamespace w |}.

(** The cluster converges at once: pods are gone as soon as the desired
    replica count is written. *)
Definition update (d : Deployment) (w : Cluster) : Cluster :=
  withDeployments w
    ((λ e : string * Deployment,
        if bool_decide (sameKey (d_Name d) (d_Namespace d) e) then
          (e.1, {| d_Name := d_Name d; d_Namespace := d_Namespace d;
                   Spec_Replicas := Spec_Replicas d;
                   Status_Replicas := default 1%Z (Spec_Replicas d) |})
        else e) <$> deployments w).

Definition install (c : Components) (w : Cluster) : Cluster :=
  let p := {| ProviderName := c_Name c; Type_ := c_Type c;
              Version := c_Version c; Namespace := c_TargetNamespace c |} in
  {| inventory :=
       (λ q, if bool_decide (InstanceName q = InstanceName p) then p else q)
         <$> inventory w;
     repositories := repositories w;
     deployments :=
       deployments w
       ++ [ (ManifestLabel p,
             {| d_Name := ManifestLabel p +:+ "-controller-manager";
                d_Namespace := Namespace p;
                Spec_Replicas := Some 1%Z; Status_Replicas := 1%Z |}) ];
     webhookNamespace := webhookNamespace w |}.

Definition delete (o : DeleteOptions) (w : Cluster) : Cluster :=
  {| inventory :=
       if SkipInventory o then inventory w
       else filter (λ q, InstanceName q ≠ InstanceName (do_Provider o))
                   (inventory w);
     repositories := repositories w;
     deployments := filter (λ d, ¬ ownedBy (do_Provider o) d)
                           (deployments w);
     webhookNamespace := webhookNamespace w |}.

Definition upgraderWith (info : Cluster → Provider → result upgradeInfo)
  : providerUpgrader Cluster Repository Repository := {|
  providerInventory_List := λ w, Ok (inventory w);
  providerInventory_CheckSingleProviderInstance := λ w,
    CheckSingleProviderInstance (inventory w);
  getUpgradeInfo := info;
  configClient_Providers_Get := λ w name type,
    match findRepository w
            (ManifestLabel (mkProvider name type "" "")) with
    | Some r => Ok r
    | None => Err (ErrExternal "failed to get configuration for the provider")
    end;
  repositoryClientFactory := λ w r, Ok r;
  Components_Get := λ r o w,
    (match ParseSemantic (co_Version o) with
     | Ok v =>
         if bool_decide (v ∈ repo_Versions r) then
           match list_find (λ p, ManifestLabel p = repo_Label r)
                   (inventory w) with
           | Some (_, p) =>
               Ok {| c_Name := ProviderName p; c_Type := Type_ p;
                     c_Version := co_Version o;
                     c_TargetNamespace := co_TargetNamespace o |}
           | None => Err (ErrExternal "unknown provider")
           end
         else Err (ErrExternal "failed to read the components file")
     | Err e => Err e
     end, w);
  proxy_NewClient := λ w, None;
  client_List := λ p w,
    (Ok (snd <$> filter (ownedBy p) (deployments w)), w);
  client_Get := λ name namespace w,
    (match list_find (sameKey name namespace) (deployments w) with
     | Some (_, d) => Ok d.2
     | None => Err (ErrExternal "not found")
     end, w);
  client_Update := λ d w, (None, update d w);
  providerComponents_Delete := λ o w, (None, delete o w);
  providerComponents_DeleteWebhookNamespace := λ w,
    (None, {| inventory := inventory w; repositories := repositories w;
              deployments := deployments w; webhookNamespace := false |});
  installComponentsAndUpdateInventory := λ c w, (None, install c w)
|}.

Definition upgrader : providerUpgrader Cluster Repository Repository :=
  upgraderWith resolve.

(** Every error counts as transient, as in a polling loop. *)
Definition isRetryable (e : error) : bool := true.

End Fake.

(** Modelled from the spec: the constant [clusterv1.GroupVersion.Version] is
    declared in the Cluster API types package imported as [clusterv1] from
    api/v1beta1; it is the single contract this release upgrades to. *)
Definition v1beta1 : string := "v1beta1".

(* ------------------------------------------------------------------ *)
(** ** Fleets to run the upgrader on *)

Module Scenario.

(** A fleet of a core provider and a control plane provider, both at v0.4.2
    under contract v1alpha4.  The core provider has released v0.4.5 under
    v1alpha4 and v0.5.0 under v1alpha5, the control plane provider only
    v0.4.5 under v1alpha4. *)
Definition core : Provider :=
  mkProvider "cluster-api" CoreProviderType "v0.4.2" "capi-system".

Definition controlPlane : Provider :=
  mkProvider "kubeadm" ControlPlaneProviderType "v0.4.2"
    "capi-kubeadm-control-plane-system".

(** A provider that is not part of the fleet. *)
Definition aws : Provider :=
  mkProvider "aws" InfrastructureProviderType "v0.4.2" "capa-system".

Definition repositories : list Fake.Repository :=
  [ Fake.mkRepository "cluster-api"
      [mkReleaseSeries 0 4 "v1alpha4"; mkReleaseSeries 0 5 "v1alpha5"]
      [mkSemVersion 0 4 2; mkSemVersion 0 4 5; mkSemVersion 0 5 0];
    Fake.mkRepository "control-plane-kubeadm"
      [mkReleaseSeries 0 4 "v1alpha4"]
      [mkSemVersion 0 4 2; mkSemVersion 0 4 5] ].

Definition coreDeployment : Deployment :=
  mkDeployment "capi-controller-manager" "capi-system" (Some 1%Z) 1%Z.

Definition controlPlaneDeployment : Deployment :=
  mkDeployment "capi-kubeadm-control-plane-controller-manager"
    "capi-kubeadm-control-plane-system" (Some 1%Z) 1%Z.

Definition fleet : Fake.Cluster :=
  Fake.mkCluster [controlPlane; core] repositories
    [ ("cluster-api", coreDeployment);
      ("control-plane-kubeadm", controlPlaneDeployment) ]
    true.

(** The same fleet with a second instance of the control plane provider, in
    another namespace. *)
Definition fleetTwoInstances : Fake.Cluster :=
  Fake.mkCluster
    [ controlPlane; core;
      mkProvider "kubeadm" ControlPlaneProviderType "v0.4.2" "tenant-system" ]
    repositories
    [ ("cluster-api", coreDeployment);
      ("control-plane-kubeadm", controlPlaneDeployment) ]
    true.

(** The fleet when the control plane provider has released nothing newer
    than what is installed. *)
Definition fleetNoNewerControlPlane : Fake.Cluster :=
  Fake.mkCluster [controlPlane; core]
    [ Fake.mkRepository "cluster-api"
        [mkReleaseSeries 0 4 "v1alpha4"; mkReleaseSeries 0 5 "v1alpha5"]
        [mkSemVersion 0 4 2; mkSemVersion 0 4 5; mkSemVersion 0 5 0];
      Fake.mkRepository "control-plane-kubeadm"
        [mkReleaseSeries 0 4 "v1alpha4"] [mkSemVersion 0 4 2] ]
    [ ("cluster-api", coreDeployment);
      ("control-plane-kubeadm", controlPlaneDeployment) ]
    true.

(** The fleet when the control plane provider too has released v0.5.0
    under v1alpha5. *)
Definition fleetAllNewer : Fake.Cluster :=
  Fake.mkCluster [controlPlane; core]
    [ Fake.mkRepository "cluster-api"
        [mkReleaseSeries 0 4 "v1alpha4"; mkReleaseSeries 0 5 "v1alpha5"]
        [mkSemVersion 0 4 2; mkSemVersion 0 4 5; mkSemVersion 0 5 0];
      Fake.mkRepository "control-plane-kubeadm"
        [mkReleaseSeries 0 4 "v1alpha4"; mkReleaseSeries 0 5 "v1alpha5"]
        [mkSemVersion 0 4 2; mkSemVersion 0 4 5; mkSemVersion 0 5 0] ]
    [ ("cluster-api", coreDeployment);
      ("control-plane-kubeadm", controlPlaneDeployment) ]
    true.

(** The fleet with the deployment of the core provider already scaled
    down. *)
Definition scaledDownDeployment : Deployment :=
  mkDeployment "capi-controller-manager" "capi-system" (Some 0%Z) 0%Z.

Definition fleetScaledDown : Fake.Cluster :=
  Fake.mkCluster [controlPlane; core] repositories
    [ ("cluster-api", scaledDownDeployment);
      ("control-plane-kubeadm", controlPlaneDeployment) ]
    true.

(** An inventory without a core provider. *)
Definition fleetNoCore : Fake.Cluster :=
  Fake.mkCluster [controlPlane] repositories
    [("control-plane-kubeadm", controlPlaneDeployment)] true.

(** The plan of contract v1alpha4 for the fleet, items in inventory order. *)
Definition planV1alpha4 : UpgradePlan :=
  {| Contract := "v1alpha4";
     Providers := [ mkUpgradeItem controlPlane "v0.4.5";
                    mkUpgradeItem core "v0.4.5" ] |}.

(** The same items under the contract of this release. *)
Definition planV1beta1 : UpgradePlan :=
  {| Contract := v1beta1; Providers := Providers planV1alpha4 |}.

(** A plan whose items ask for the versions that are installed. *)
Definition planSameVersion : UpgradePlan :=
  {| Contract := "v1alpha4";
     Providers := [ mkUpgradeItem controlPlane "v0.4.2";
                    mkUpgradeItem core "v0.4.2" ] |}.

(** A plan none of whose items has a next version. *)
Definition planNoChange : UpgradePlan :=
  {| Contract := "v1alpha4";
     Providers := [ mkUpgradeItem controlPlane "";
                    mkUpgradeItem core "" ] |}.

End Scenario.

(* ------------------------------------------------------------------ *)
(** ** More readings of the recorded calls *)

(** The fetches of components, in order: the provider name and the options
    handed to the repository. *)
Definition fetched (t : list Event) : list (string * ComponentsOptions) :=
  omap (λ ev, match ev with
              | EvGetComponents name o => Some (name, o)
              | _ => None
              end) t.

(** The components installed, in order. *)
Definition installed (t : list Event) : list Components :=
  omap (λ ev, match ev with EvInstall c => Some c | _ => None end) t.

(** The deployments written, in order. *)
Definition updated (t : list Event) : list Deployment :=
  omap (λ ev, match ev with EvUpdateDeployment d => Some d | _ => None end) t.

(** The keys of the deployments read, in order. *)
Definition read (t : list Event) : list (string * string) :=
  omap (λ ev, match ev with
              | EvGetDeployment name namespace => Some (name, namespace)
              | _ => None
              end) t.

(** The fetch [getUpgradeComponents] makes for an upgrade item. *)
Definition fetchFor (i : UpgradeItem) : string * ComponentsOptions :=
  (ProviderName (UpgradeItem_Provider i),
   {| co_Version := NextVersion i;
      co_TargetNamespace := Namespace (UpgradeItem_Provider i) |}).


(* ------------------------------------------------------------------ *)
(** ** The manifests downloader (operator, [manifests_downloader.go]) *)

Module Downloader.

(** Errors of the downloader: an error handed back by a collaborator, an
    error built by [fmt.Errorf] without a cause, and one built around a
    cause (the verb w).  [msg] is the format string up to the cause; the
    other arguments of the format are not kept. *)
Inductive derror : Type :=
  | ErrCollaborator (msg : string)
  | Errorf (msg : string)
  | ErrorfW (msg : string) (cause : derror).

Inductive res (A : Type) : Type :=
  | ROk (a : A)
  | RErr (e : derror).
Arguments ROk {A} a.
Arguments RErr {A} e.

(** [metav1.LabelSelector], with the field the downloader sets. *)
Record LabelSelector : Type := mkLabelSelector {
  MatchLabels : gmap string string
}.

(** [operatorv1.FetchConfiguration] and [operatorv1.ProviderSpec], with the
    fields the downloader reads. *)
Record FetchConfiguration : Type := mkFetchConfiguration {
  fc_URL : option string;
  fc_Selector : option LabelSelector
}.

Record ProviderSpec : Type := mkProviderSpec {
  spec_Version : string;
  FetchConfig : option FetchConfiguration
}.

(** The test [FetchConfig != nil && FetchConfig.Selector != nil]. *)
Definition usesCustomConfigMap (spec : ProviderSpec) : bool :=
  match FetchConfig spec with
  | Some fetchConfig =>
      match fc_Selector fetchConfig with
      | Some _ => true
      | None => false
      end
  | None => false
  end.

(** [schema.GroupVersionKind]. *)
Record GroupVersionKind : Type := mkGroupVersionKind {
  gvk_Group : string;
  gvk_Version : string;
  gvk_Kind : string
}.

(** [schema.GroupVersion.String()] of k8s.io/apimachinery: the group and the
    version joined by a slash, the version alone for the empty group. *)
Definition GroupVersion_String (gvk : GroupVersionKind) : string :=
  if bool_decide (gvk_Group gvk = "") then gvk_Version gvk
  else gvk_Group gvk +:+ "/" +:+ gvk_Version gvk.

(** The provider object behind the [GenericProvider] interface, by what its
    getters return. *)
Record GenericProvider : Type := mkGenericProvider {
  GetSpec : ProviderSpec;
  GetType : string;
  GetName : string;
  GetNamespace : string;
  GetUID : string;
  GroupVersionKind_ : GroupVersionKind
}.

(** [metav1.OwnerReference] and [corev1.ConfigMap], with the fields the
    downloader sets. *)
Record OwnerReference : Type := mkOwnerReference {
  or_APIVersion : string;
  or_Kind : string;
  or_Name : string;
  or_UID : string
}.

#[global] Instance OwnerReference_eq_dec : EqDecision OwnerReference.
Proof. solve_decision. Defined.

Record ConfigMap : Type := mkConfigMap {
  cm_Name : string;
  cm_Namespace : string;
  cm_Labels : gmap string string;
  cm_Data : gmap string string;
  cm_OwnerReferences : list OwnerReference
}.

#[global] Instance ConfigMap_eq_dec : EqDecision ConfigMap.
Proof. solve_decision. Defined.

(** [reconcile.Result]; the downloader only returns its zero value. *)
Record Result : Type := mkResult {
  Requeue : bool;
  RequeueAfter : Z
}.

Definition Result_zero : Result := {| Requeue := false; RequeueAfter := 0 |}.

(** The calls of the downloader on the cluster and on the repository. *)
Inductive Call : Type :=
  | CallList (labels : gmap string string)
  | CallGetFile (version path : string)
  | CallCreate (cm : ConfigMap).

#[global] Instance Call_eq_dec : EqDecision Call.
Proof. solve_decision. Defined.

(** A computation of the downloader on the cluster state [W]: its outcome,
    the state it leaves and the calls it made. *)
Definition D (W A : Type) : Type := W → res A * W * list Call.

#[global] Instance D_ret {W} : MRet (D W) := λ A a w, (ROk a, w, []).
#[global] Instance D_bind {W} : MBind (D W) := λ A B f m w,
  match m w with
  | (ROk a, w', t) =>
      let '(r, w'', t') := f a w' in (r, w'', t ++ t')
  | (RErr e, w', t) => (RErr e, w', t)
  end.

(** A read, recorded as [c]; it leaves the state as it is. *)
Definition reading {W A} (c : Call) (op : W → res A) : D W A :=
  λ w, (op w, w, [c]).

(** A lookup that leaves no record. *)
Definition lookup {W A} (op : W → res A) : D W A := λ w, (op w, w, []).

Definition dfail {W A} (e : derror) : D W A := λ w, (RErr e, w, []).

(** A write, recorded as [c]. *)
Definition writing {W} (c : Call) (op : W → option derror * W) : D W () :=
  λ w, let '(e, w') := op w in
       (match e with None => ROk () | Some e => RErr e end, w', [c]).

(** The error of a computation, rebuilt by [f]. *)
Definition mapErr {W A} (f : derror → derror) (m : D W A) : D W A :=
  λ w, match m w with
       | (RErr e, w', t) => (RErr (f e), w', t)
       | r => r
       end.

Definition dtrace {W A} (r : res A * W * list Call) : list Call := r.2.
Definition dfinal {W A} (r : res A * W * list Call) : W := r.1.2.
Definition doutcome {W A} (r : res A * W * list Call) : res A := r.1.1.

(** The label and data keys of the config map of manifests. *)
Definition configMapVersionLabel : string := "provider.cluster.x-k8s.io/version".
Definition configMapTypeLabel : string := "provider.cluster.x-k8s.io/type".
Definition configMapNameLabel : string := "provider.cluster.x-k8s.io/name".
Definition operatorManagedLabel : string := "managed-by.operator.cluster.x-k8s.io".
Definition metadataConfigMapKey : string := "metadata".
Definition componentsConfigMapKey : string := "components".

(** [phaseReconciler], with the fields and collaborators the downloader
    uses.  [repositoryFactory] stands for the package function applied to
    the provider configuration and the variables of the reconciler;
    listings and file reads depend on the state [W], a create changes it. *)
Record phaseReconciler (W Repository : Type) : Type := {
  provider : GenericProvider;
  options_Version : string;
  repositoryFactory : W → res Repository;
  repo_GetFile : Repository → string → string → W → res string;
  repo_ComponentsPath : Repository → string;
  ctrlClient_List : gmap string string → W → res (list ConfigMap);
  ctrlClient_Create : ConfigMap → W → option derror * W
}.

Arguments provider {W Repository} _.
Arguments options_Version {W Repository} _.
Arguments repositoryFactory {W Repository} _ _.
Arguments repo_GetFile {W Repository} _ _ _ _ _.
Arguments repo_ComponentsPath {W Repository} _ _.
Arguments ctrlClient_List {W Repository} _ _ _.
Arguments ctrlClient_Create {W Repository} _ _ _.

Section Reconciler.

Context {W Repository : Type}.

(** [wrapPhaseError], declared with the phases of the reconciler: it builds
    the error of a phase from a cause, a reason and a condition type. *)
Variable wrapPhaseError : derror → string → string → derror.

(** [operatorv1.PreflightCheckCondition] and
    [operatorv1.ComponentsFetchErrorReason], constants of the operator API. *)
Variable PreflightCheckCondition : string.
Variable ComponentsFetchErrorReason : string.

(** The name of the metadata file, a constant of the package. *)
Variable metadataFile : string.

Variable p : phaseReconciler W Repository.

(** [prepareConfigMapLabels]. *)
Definition prepareConfigMapLabels : gmap string string :=
  {[ configMapVersionLabel := spec_Version (GetSpec (provider p));
     configMapTypeLabel := GetType (provider p);
     configMapNameLabel := GetName (provider p);
     operatorManagedLabel := "true" ]}.

(** [checkConfigMapExists]. *)
Definition checkConfigMapExists (labelSelector : LabelSelector) : D W bool :=
  configMapList ←
    mapErr (λ err, ErrorfW "failed to list ConfigMaps" err)
      (reading (CallList (MatchLabels labelSelector))
         (ctrlClient_List p (MatchLabels labelSelector)));
  if bool_decide (1 < length configMapList) then
    dfail (Errorf "more than one config maps were found for given selector: %v")
  else mret (bool_decide (length configMapList = 1)).

(** The config map [createManifestsConfigMap] builds. *)
Definition manifestsConfigMap (metadata components : string) : ConfigMap :=
  let gvk := GroupVersionKind_ (provider p) in
  {| cm_Name := GetType (provider p) +:+ "-" +:+ GetName (provider p)
                +:+ "-" +:+ spec_Version (GetSpec (provider p));
     cm_Namespace := GetNamespace (provider p);
     cm_Labels := prepareConfigMapLabels;
     cm_Data := {[ metadataConfigMapKey := metadata;
                   componentsConfigMapKey := components ]};
     cm_OwnerReferences :=
       [ {| or_APIVersion := GroupVersion_String gvk;
            or_Kind := gvk_Kind gvk;
            or_Name := GetName (provider p);
            or_UID := GetUID (provider p) |} ] |}.

(** [createManifestsConfigMap]. *)
Definition createManifestsConfigMap (metadata components : string) : D W () :=
  let configMap := manifestsConfigMap metadata components in
  writing (CallCreate configMap) (ctrlClient_Create p configMap).

(** [downloadManifests]. *)
Definition downloadManifests : D W Result :=
  if usesCustomConfigMap (GetSpec (provider p)) then mret Result_zero
  else
    let labelSelector := {| MatchLabels := prepareConfigMapLabels |} in
    exists_ ←
      mapErr (λ err,
                wrapPhaseError err
                  "failed to check that config map with manifests exists"
                  PreflightCheckCondition)
        (checkConfigMapExists labelSelector);
    if exists_ : bool then mret Result_zero
    else
      repo ←
        mapErr (λ err,
                  wrapPhaseError
                    (ErrorfW "failed to create repo from provider url for provider %q" err)
                    ComponentsFetchErrorReason PreflightCheckCondition)
          (lookup (repositoryFactory p));
      metadataFile_ ←
        mapErr (λ err,
                  wrapPhaseError
                    (ErrorfW "failed to read %q from the repository for provider %q" err)
                    ComponentsFetchErrorReason PreflightCheckCondition)
          (reading (CallGetFile (options_Version p) metadataFile)
             (repo_GetFile p repo (options_Version p) metadataFile));
      componentsFile ←
        mapErr (λ err,
                  wrapPhaseError
                    (ErrorfW "failed to read %q from the repository for provider %q" err)
                    ComponentsFetchErrorReason PreflightCheckCondition)
          (reading (CallGetFile (options_Version p) (repo_ComponentsPath p repo))
             (repo_GetFile p repo (options_Version p)
                (repo_ComponentsPath p repo)));
      _ ←
        mapErr (λ err,
                  wrapPhaseError
                    (ErrorfW "failed to create config map for provider %q" err)
                    ComponentsFetchErrorReason PreflightCheckCondition)
          (createManifestsConfigMap metadataFile_ componentsFile);
      mret Result_zero.

End Reconciler.

(** A cluster held in memory for the downloader: the config maps stored.  A
    listing returns the stored config maps that carry all the labels asked
    for; a create stores the config map. *)
Definition matches (labels : gmap string string) (cm : ConfigMap) : Prop :=
  labels ⊆ cm_Labels cm.

#[global] Instance matches_dec labels cm : Decision (matches labels cm).
Proof. unfold matches; apply _. Defined.

Definition inMemory (prov : GenericProvider) (version : string)
    (files : string → string → res string)
  : phaseReconciler (list ConfigMap) () := {|
  provider := prov;
  options_Version := version;
  repositoryFactory := λ _, ROk ();
  repo_GetFile := λ _ v path _, files v path;
  repo_ComponentsPath := λ _, "components.yaml";
  ctrlClient_List := λ labels w, ROk (filter (matches labels) w);
  ctrlClient_Create := λ cm w, (None, w ++ [cm])
|}.

(** A core provider of the operator, fetched from its repository. *)
Definition exampleProvider : GenericProvider :=
  {| GetSpec := {| spec_Version := "v1.4.0"; FetchConfig := None |};
     GetType := "core";
     GetName := "cluster-api";
     GetNamespace := "capi-system";
     GetUID := "6e3b";
     GroupVersionKind_ :=
       {| gvk_Group := "operator.cluster.x-k8s.io";
          gvk_Version := "v1alpha1";
          gvk_Kind := "CoreProvider" |} |}.

Definition exampleFiles (version path : string) : res string :=
  if bool_decide (version = "v1.4.0") then
    if bool_decide (path = "metadata.yaml") then ROk "releaseSeries: []"
    else if bool_decide (path = "components.yaml") then ROk "kind: Deployment"
    else RErr (ErrCollaborator "file not found")
  else RErr (ErrCollaborator "release not found").

(** The error of a phase, as a wrapped error, and the constants of the
    operator API, for runs in memory. *)
Definition examplePhaseError (err : derror) (reason ctype : string) : derror :=
  ErrorfW (ctype +:+ ": " +:+ reason) err.

Definition exampleReconciler : phaseReconciler (list ConfigMap) () :=
  inMemory exampleProvider "v1.4.0" exampleFiles.

Definition exampleDownload : D (list ConfigMap) Result :=
  downloadManifests examplePhaseError "PreflightCheckPassed"
    "ComponentsFetchError" "metadata.yaml" exampleReconciler.

(** The same reconciler asked for a release the repository does not
    hold. *)
Definition missingRelease : phaseReconciler (list ConfigMap) () :=
  inMemory exampleProvider "v9.9.9" exampleFiles.

End Downloader.

(* ------------------------------------------------------------------ *)
(** ** Insertion sort is a [sort.Slice] *)

Section InsertionSort.

Context {A : Type} (less : A → A → bool).

Lemma insertSorted_Permutation (x : A) (l : list A) :
  insertSorted less x l ≡ₚ x :: l.
Proof.
  induction l as [|y l IH]; simpl; [done|].
  destruct (less x y); [done|].
  rewrite IH. apply Permutation_swap.
Qed.

Lemma insertionSort_Permutation (l : list A) : insertionSort less l ≡ₚ l.
Proof.
  induction l as [|x l IH]; simpl; [done|].
  rewrite insertSorted_Permutation. by f_equiv.
Qed.

Hypothesis less_swo : StrictWeakOrder less.

Lemma less_asym (a b : A) : less a b = true → less b a = false.
Proof.
  destruct less_swo as (Hirr & Htrans & _). intros Hab.
  destruct (less b a) eqn:Hba; [|done].
  by rewrite <- (Hirr a), (Htrans a b a).
Qed.

Lemma insertSorted_HdRel (a x : A) (l : list A) :
  less x a = false →
  HdRel (λ a b, less b a = false) a l →
  HdRel (λ a b, less b a = false) a (insertSorted less x l).
Proof.
  intros Hxa Hhd. destruct l as [|y l]; simpl; [by constructor|].
  destruct (less x y); constructor; [done|].
  by inversion Hhd.
Qed.

Lemma insertSorted_Sorted (x : A) (l : list A) :
  Sorted (λ a b, less b a = false) l →
  Sorted (λ a b, less b a = false) (insertSorted less x l).
Proof.
  induction 1 as [|y l Hs IH Hhd]; simpl.
  - repeat constructor.
  - destruct (less x y) eqn:Hxy.
    + constructor; [by constructor|]. constructor. by apply less_asym.
    + constructor; [done|]. by apply insertSorted_HdRel.
Qed.

Lemma insertionSort_Sorted (l : list A) :
  Sorted (λ a b, less b a = false) (insertionSort less l).
Proof.
  induction l as [|x l IH]; simpl; [constructor|].
  by apply insertSorted_Sorted.
Qed.

End InsertionSort.

#[global] Instance insertionSorter : SliceSorter := {|
  sort_Slice := @insertionSort;
  sort_Slice_Permutation := @insertionSort_Permutation;
  sort_Slice_Sorted := λ A less l Hswo, insertionSort_Sorted less Hswo l
|}.

(* ------------------------------------------------------------------ *)
(** ** The plan builder *)

Lemma isPartialUpgrade_loop_false (items : list UpgradeItem) :
  isPartialUpgrade_loop items = false
  ↔ Forall (λ i, NextVersion i ≠ "") items.
Proof.
  induction items as [|i items IH]; simpl.
  - split; [constructor|done].
  - case_bool_decide as Hi.
    + split; [done|]. inversion 1; simplify_eq.
    + rewrite IH. split; [by constructor|by inversion 1].
Qed.

Lemma isPartialUpgrade_true (plan : UpgradePlan) :
  isPartialUpgrade plan = true
  ↔ ∃ i, i ∈ Providers plan ∧ NextVersion i = "".
Proof.
  unfold isPartialUpgrade.
  destruct (isPartialUpgrade_loop (Providers plan)) eqn:Hp.
  - split; [intros _|done].
    apply not_false_iff_true in Hp.
    rewrite isPartialUpgrade_loop_false in Hp.
    apply not_Forall_Exists, Exists_exists in Hp; [|apply _].
    destruct Hp as (i & Hin & Hi). exists i. split; [done|].
    by apply dec_stable.
  - split; [done|]. intros (i & Hin & Hi).
    apply isPartialUpgrade_loop_false in Hp.
    rewrite Forall_forall in Hp. by destruct (Hp i Hin).
Qed.

(** Whether a plan has an item with an empty next version and is of a
    contract other than [current] is decided by [isPartialUpgrade] and a
    comparison, so its double negation can be dropped. *)
Lemma dec_stable_partial_change (plan : UpgradePlan) (current : string) :
  ¬ ¬ ((∃ i, i ∈ Providers plan ∧ NextVersion i = "")
       ∧ Contract plan ≠ current) →
  (∃ i, i ∈ Providers plan ∧ NextVersion i = "") ∧ Contract plan ≠ current.
Proof.
  rewrite <- isPartialUpgrade_true. apply dec_stable.
Qed.

Section PlanBuilder.

Context {W ConfigProvider RepositoryClient : Type}.
Variable versionTag : option SemVersion → string.
Variable u : providerUpgrader W ConfigProvider RepositoryClient.

Lemma getUpgradePlan_Contract (w : W) (providers : list Provider)
    (contract : string) (plan : UpgradePlan) :
  getUpgradePlan versionTag u w providers contract = Ok plan →
  Contract plan = contract.
Proof.
  unfold getUpgradePlan.
  destruct (getUpgradePlan_loop _ _ _ _ _ _) as [l|e]; simpl; [|done].
  by intros [= <-].
Qed.

Lemma Plan_loop_spec (w : W) (items : list Provider)
    (coreUpgradeInfo : upgradeInfo) (contracts : list string)
    (ret out : list UpgradePlan) :
  Plan_loop versionTag u w items coreUpgradeInfo contracts ret = Ok out →
  ∃ candidates,
    Forall2 (λ contract plan,
               getUpgradePlan versionTag u w items contract = Ok plan)
            contracts candidates
    ∧ out = ret ++ filter (keptPlan (currentContract coreUpgradeInfo))
                          candidates.
Proof.
  revert ret. induction contracts as [|c cs IH]; simpl; intros ret.
  - intros [= <-]. exists []. split; [constructor|].
    by rewrite app_nil_r.
  - destruct (getUpgradePlan versionTag u w items c) as [plan|e] eqn:Hplan;
      simpl; [|done].
    pose proof (getUpgradePlan_Contract _ _ _ _ Hplan) as Hc.
    destruct (isPartialUpgrade plan) eqn:Hpartial; simpl.
    + case_bool_decide as Hcur; intros Hloop;
        destruct (IH _ Hloop) as (cands & Hall & ->);
        exists (plan :: cands); (split; [by constructor|]).
      * rewrite filter_cons_False; [done|].
        unfold keptPlan. intros Hk. apply Hk. split; [done|congruence].
      * rewrite filter_cons_True, <- app_assoc; [done|].
        unfold keptPlan. intros [_ Hne]. congruence.
    + intros Hloop. destruct (IH _ Hloop) as (cands & Hall & ->).
      exists (plan :: cands). split; [by constructor|].
      rewrite filter_cons_True, <- app_assoc; [done|].
      unfold keptPlan. intros [Ht _]. congruence.
Qed.

(** C1.  Whenever [Plan] returns a list of plans, that list is the list of
    the candidate plans, one per contract considered and in that order,
    from which exactly the plans that have an item with an empty next
    version and change the contract of the core provider have been dropped.
    A candidate plan is discarded if and only if some item of it has an
    empty next version and its contract differs from the current contract
    of the core provider; so a partial plan of the current contract is
    kept, a plan all of whose items have a next version is kept whatever
    its contract, and every item of a returned plan of another contract has
    a next version. *)
Theorem Plan_drop_rule (w : W) (ret : list UpgradePlan) :
  Plan versionTag u w = Ok ret →
  ∃ (items : list Provider) (coreProvider : Provider)
    (coreUpgradeInfo : upgradeInfo) (candidates : list UpgradePlan),
    providerInventory_List u w = Ok items
    ∧ FilterCore items = [coreProvider]
    ∧ getUpgradeInfo u w coreProvider = Ok coreUpgradeInfo
    ∧ Forall2 (λ contract plan,
                 getUpgradePlan versionTag u w items contract = Ok plan)
              (getContractsForUpgrade coreUpgradeInfo) candidates
    ∧ ret
      = filter (λ plan,
                  ¬ (Exists (λ i, NextVersion i = "") (Providers plan)
                     ∧ Contract plan ≠ currentContract coreUpgradeInfo))
               candidates
    ∧ (∀ plan, plan ∈ candidates →
         (plan ∉ ret
          ↔ (∃ i, i ∈ Providers plan ∧ NextVersion i = "")
            ∧ Contract plan ≠ currentContract coreUpgradeInfo))
    ∧ (∀ plan, plan ∈ candidates →
         (∃ i, i ∈ Providers plan ∧ NextVersion i = "") →
         Contract plan = currentContract coreUpgradeInfo → plan ∈ ret)
    ∧ (∀ plan, plan ∈ candidates →
         (∀ i, i ∈ Providers plan → NextVersion i ≠ "") → plan ∈ ret)
    ∧ (∀ plan, plan ∈ ret →
         Contract plan ≠ currentContract coreUpgradeInfo →
         ∀ i, i ∈ Providers plan → NextVersion i ≠ "").
Proof.
  unfold Plan. intros HPlan.
  destruct (providerInventory_List u w) as [items|e] eqn:HList;
    simpl in HPlan; [|done].
  destruct (FilterCore items) as [|coreProvider [|? ?]] eqn:Hcore;
    [done| |done].
  destruct (getUpgradeInfo u w coreProvider) as [info|e] eqn:Hinfo;
    simpl in HPlan; [|done].
  assert (∃ candidates,
            Forall2 (λ contract plan,
                       getUpgradePlan versionTag u w items contract
                       = Ok plan)
                    (getContractsForUpgrade info) candidates
            ∧ ret = filter (keptPlan (currentContract info)) candidates)
    as (candidates & Hall & Hret).
  { case_bool_decide as Hlen.
    - simpl in HPlan. injection HPlan as <-.
      apply length_zero_iff_nil in Hlen. rewrite Hlen.
      exists []. split; [constructor|done].
    - by apply Plan_loop_spec in HPlan. }
  exists items, coreProvider, info, candidates.
  repeat (split; [done|]).
  split.
  { rewrite Hret. apply list_filter_iff. intros plan. unfold keptPlan.
    by rewrite isPartialUpgrade_true, Exists_exists. }
  assert (∀ plan, plan ∈ ret
                  ↔ plan ∈ candidates
                    ∧ ¬ ((∃ i, i ∈ Providers plan ∧ NextVersion i = "")
                         ∧ Contract plan ≠ currentContract info))
    as Hin.
  { intros plan. rewrite Hret, list_elem_of_filter. unfold keptPlan.
    rewrite isPartialUpgrade_true. tauto. }
  split; [|split; [|split]].
  - intros plan Hcand. rewrite Hin. split.
    + intros Hnot. apply dec_stable_partial_change. intros Hk.
      apply Hnot. by split.
    + intros Hd [_ Hk]. by apply Hk.
  - intros plan Hcand Hp Hc. apply Hin. split; [done|].
    intros [_ Hne]. done.
  - intros plan Hcand Hfull. apply Hin. split; [done|].
    intros [(i & Hi & Hempty) _]. by apply (Hfull i).
  - intros plan [Hcand Hk]%Hin Hne i Hi Hempty.
    apply Hk. split; [|done]. by exists i.
Qed.

(** When the list of contracts for upgrade is empty, the wrapped error is
    nil and [Plan] returns no error. *)
Lemma Plan_no_contract (w : W) (items : list Provider)
    (coreProvider : Provider) (coreUpgradeInfo : upgradeInfo) :
  providerInventory_List u w = Ok items →
  FilterCore items = [coreProvider] →
  getUpgradeInfo u w coreProvider = Ok coreUpgradeInfo →
  getContractsForUpgrade coreUpgradeInfo = [] →
  Plan versionTag u w = Ok [].
Proof.
  intros HList Hcore Hinfo Hnil. unfold Plan.
  rewrite HList; simpl. rewrite Hcore, Hinfo; simpl.
  by rewrite Hnil.
Qed.

End PlanBuilder.

(* ------------------------------------------------------------------ *)
(** ** The custom plan validator *)

Section Validator.

Context {W ConfigProvider RepositoryClient : Type}.
Variable GroupVersion_Version : string.
Variable ParseSemantic : string → result SemVersion.
Variable u : providerUpgrader W ConfigProvider RepositoryClient.

#[local] Abbreviation contractByVersion :=
  (getProviderContractByVersion ParseSemantic u).
#[local] Abbreviation acceptedItem := (acceptedItem ParseSemantic u).
#[local] Abbreviation compliantProvider := (compliantProvider ParseSemantic u).

Lemma targetCoreProviderVersion_loop_find (coreProvider : Provider)
    (upgradeItems : list UpgradeItem) (current : string) :
  targetCoreProviderVersion_loop coreProvider upgradeItems current
  = match list_find (λ i, itemName i = InstanceName coreProvider)
            upgradeItems with
    | Some (_, i) => NextVersion i
    | None => current
    end.
Proof.
  induction upgradeItems as [|i rest IH]; simpl; [done|].
  case_bool_decide as Hi.
  - by rewrite decide_True.
  - rewrite decide_False by done. rewrite IH.
    by destruct (list_find _ rest) as [[? ?]|].
Qed.

Lemma matchProvider_Some (items : list Provider) (name : string)
    (p : Provider) :
  matchProvider items name = Some p → p ∈ items ∧ InstanceName p = name.
Proof.
  induction items as [|q items IH]; simpl; [done|].
  case_bool_decide as Hq.
  - intros [= <-]. split; [left|done].
  - intros [Hin Hn]%IH. split; [by right|done].
Qed.

Lemma matchProvider_None (items : list Provider) (name : string) :
  matchProvider items name = None
  ↔ ∀ p, p ∈ items → InstanceName p ≠ name.
Proof.
  induction items as [|q items IH]; simpl.
  - split; [|done]. intros _ p Hp. by apply elem_of_nil in Hp.
  - case_bool_decide as Hq.
    + split; [done|]. intros Hall. destruct (Hall q); [left|done].
    + rewrite IH. split.
      * intros Hall p [->|Hp]%elem_of_cons; auto.
      * intros Hall p Hp. apply Hall. by right.
Qed.

Lemma upgradeItems_loop_accepted (w : W) (items : list Provider)
    (targetContract : string) (pre rest : list UpgradeItem)
    (upgradePlan : UpgradePlan) (names : gset string) :
  Forall (acceptedItem w items targetContract) pre →
  upgradeItems_loop ParseSemantic u w items targetContract (pre ++ rest)
    upgradePlan names
  = upgradeItems_loop ParseSemantic u w items targetContract rest
      {| Contract := Contract upgradePlan;
         Providers := Providers upgradePlan ++ pre |}
      (names ∪ list_to_set (itemName <$> pre)).
Proof.
  intros Hpre. revert upgradePlan names.
  induction Hpre as [|i pre (p & Hmatch & Hc) _ IH]; intros upgradePlan names.
  - simpl. rewrite app_nil_r, (right_id_L ∅ (∪)). by destruct upgradePlan.
  - unfold itemName in Hmatch. simpl. rewrite Hmatch, Hc. simpl.
    rewrite bool_decide_false by (by intros []).
    rewrite IH. simpl. rewrite <- app_assoc, (assoc_L (∪)). done.
Qed.

Lemma upgradeItems_loop_Ok (w : W) (items : list Provider)
    (targetContract : string) (upgradeItems : list UpgradeItem)
    (upgradePlan upgradePlan' : UpgradePlan) (names names' : gset string) :
  upgradeItems_loop ParseSemantic u w items targetContract upgradeItems
    upgradePlan names = Ok (upgradePlan', names') →
  Forall (acceptedItem w items targetContract) upgradeItems
  ∧ Contract upgradePlan' = Contract upgradePlan
  ∧ Providers upgradePlan' = Providers upgradePlan ++ upgradeItems
  ∧ names' = names ∪ list_to_set (itemName <$> upgradeItems).
Proof.
  revert upgradePlan names.
  induction upgradeItems as [|i rest IH]; simpl; intros upgradePlan names.
  - intros [= <- <-]. rewrite app_nil_r, (right_id_L ∅ (∪)).
    by repeat split.
  - destruct (matchProvider items (InstanceName (UpgradeItem_Provider i)))
      as [p|] eqn:Hmatch; [|done].
    destruct (contractByVersion w p (NextVersion i)) as [c|e] eqn:Hc;
      simpl; [|done].
    case_bool_decide as Hne; [done|]. subst c.
    intros (Hall & HC & HP & HN)%IH. simpl in *.
    split; [constructor; [by exists p|done]|].
    split; [done|].
    rewrite HP, HN, <- app_assoc, (assoc_L (∪)). done.
Qed.

Lemma lagging_loop_compliant (w : W) (pre rest : list Provider)
    (targetContract : string) (names : gset string) :
  Forall (compliantProvider w targetContract names) pre →
  lagging_loop ParseSemantic u w (pre ++ rest) targetContract names
  = lagging_loop ParseSemantic u w rest targetContract names.
Proof.
  induction 1 as [|p pre Hp _ IH]; simpl; [done|].
  case_bool_decide as Hin; [done|].
  destruct Hp as [?|Hc]; [done|].
  rewrite Hc. simpl. by rewrite bool_decide_false by (by intros []).
Qed.

Lemma lagging_loop_Ok (w : W) (items : list Provider)
    (targetContract : string) (names : gset string) :
  lagging_loop ParseSemantic u w items targetContract names = Ok () →
  Forall (compliantProvider w targetContract names) items.
Proof.
  induction items as [|p items IH]; simpl; [constructor|].
  case_bool_decide as Hin.
  - intros Hloop. constructor; [by left|auto].
  - destruct (contractByVersion w p (Version p)) as [c|e] eqn:Hc;
      simpl; [|done].
    case_bool_decide as Hne; [done|]. subst c.
    intros Hloop. constructor; [by right|auto].
Qed.

#[local] Abbreviation targetVersionOf coreProvider upgradeItems :=
  (targetCoreProviderVersion_loop coreProvider upgradeItems
     (Version coreProvider)).

(** [createCustomPlan] once the inventory is listed, the core provider is
    found and the target contract is resolved. *)
Lemma createCustomPlan_resolved (w : W) (upgradeItems : list UpgradeItem)
    (items : list Provider) (coreProvider : Provider)
    (targetContract : string) :
  providerInventory_List u w = Ok items →
  FilterCore items = [coreProvider] →
  contractByVersion w coreProvider (targetVersionOf coreProvider upgradeItems)
  = Ok targetContract →
  createCustomPlan GroupVersion_Version ParseSemantic u w upgradeItems
  = if bool_decide (targetContract ≠ GroupVersion_Version) then
      Err (ErrUnsupportedContract GroupVersion_Version targetContract)
    else
      match upgradeItems_loop ParseSemantic u w items targetContract
              upgradeItems {| Contract := targetContract; Providers := [] |}
              ∅ with
      | Err e => Err e
      | Ok (upgradePlan, names) =>
          match lagging_loop ParseSemantic u w items targetContract names with
          | Err e => Err e
          | Ok _ => Ok upgradePlan
          end
      end.
Proof.
  intros HList Hcore Htc. unfold createCustomPlan.
  rewrite HList. simpl. rewrite Hcore, Htc. simpl.
  case_bool_decide; [done|].
  destruct (upgradeItems_loop _ _ _ _ _ _ _ _) as [[plan names]|e]; simpl;
    [|done].
  by destruct (lagging_loop _ _ _ _ _ _).
Qed.

(** C2.  With the inventory listed and its one core provider found, the
    target version of the core provider is the next version of the first
    upgrade item with the instance name of the core provider, and the
    installed version of the core provider when there is none; the target
    contract is the contract resolved from that version: an error of the
    resolution is returned, a contract other than the one this release
    supports is refused with the unsupported-contract error, and an accepted
    plan carries the resolved contract, which is the supported one. *)
Theorem createCustomPlan_target_contract (w : W)
    (upgradeItems : list UpgradeItem) (items : list Provider)
    (coreProvider : Provider) :
  providerInventory_List u w = Ok items →
  FilterCore items = [coreProvider] →
  targetVersionOf coreProvider upgradeItems
  = match list_find (λ i, itemName i = InstanceName coreProvider)
            upgradeItems with
    | Some (_, i) => NextVersion i
    | None => Version coreProvider
    end
  ∧ (∀ targetContract,
       contractByVersion w coreProvider
         (targetVersionOf coreProvider upgradeItems) = Ok targetContract →
       targetContract ≠ GroupVersion_Version →
       createCustomPlan GroupVersion_Version ParseSemantic u w upgradeItems
       = Err (ErrUnsupportedContract GroupVersion_Version targetContract))
  ∧ (∀ e,
       contractByVersion w coreProvider
         (targetVersionOf coreProvider upgradeItems) = Err e →
       createCustomPlan GroupVersion_Version ParseSemantic u w upgradeItems
       = Err e)
  ∧ (∀ plan,
       createCustomPlan GroupVersion_Version ParseSemantic u w upgradeItems
       = Ok plan →
       contractByVersion w coreProvider
         (targetVersionOf coreProvider upgradeItems) = Ok (Contract plan)
       ∧ Contract plan = GroupVersion_Version).
Proof.
  intros HList Hcore. split; [apply targetCoreProviderVersion_loop_find|].
  split; [|split].
  - intros tc Htc Hne.
    rewrite (createCustomPlan_resolved _ _ _ _ _ HList Hcore Htc).
    by rewrite bool_decide_true.
  - intros e He. unfold createCustomPlan.
    rewrite HList. simpl. by rewrite Hcore, He.
  - intros plan Hplan.
    destruct (contractByVersion w coreProvider
                (targetVersionOf coreProvider upgradeItems)) as [tc|e] eqn:Htc.
    + rewrite (createCustomPlan_resolved _ _ _ _ _ HList Hcore Htc) in Hplan.
      case_bool_decide as Hsup; [done|].
      destruct (upgradeItems_loop _ _ _ _ _ _ _ _) as [[plan' names]|e]
        eqn:Hloop; [|done].
      destruct (lagging_loop _ _ _ _ _ _); [|done].
      injection Hplan as ->.
      apply upgradeItems_loop_Ok in Hloop as (_ & HC & _). simpl in HC.
      rewrite HC. by subst.
    + unfold createCustomPlan in Hplan.
      rewrite HList in Hplan. simpl in Hplan.
      by rewrite Hcore, Htc in Hplan.
Qed.

(** C4, as amended.  Once the target contract is resolved and is the
    supported one: for the first requested item that fails a check (every
    item before it is accepted), validation fails with the unknown-provider
    error when no provider of the management cluster has the instance name
    of the item, and with the contract-mismatch error when the contract
    resolved from its target version differs from the target contract; and
    every item of an accepted request passes both checks, the plan holding
    the requested items in the order given. *)
Theorem createCustomPlan_requested_items (w : W)
    (upgradeItems : list UpgradeItem) (items : list Provider)
    (coreProvider : Provider) (targetContract : string) :
  providerInventory_List u w = Ok items →
  FilterCore items = [coreProvider] →
  contractByVersion w coreProvider (targetVersionOf coreProvider upgradeItems)
  = Ok targetContract →
  targetContract = GroupVersion_Version →
  (∀ pre upgradeItem post,
     upgradeItems = pre ++ upgradeItem :: post →
     Forall (acceptedItem w items targetContract) pre →
     ((∀ p, p ∈ items → InstanceName p ≠ itemName upgradeItem) →
      createCustomPlan GroupVersion_Version ParseSemantic u w upgradeItems
      = Err (ErrUnknownProvider (itemName upgradeItem)))
     ∧ (∀ provider contract,
          matchProvider items (itemName upgradeItem) = Some provider →
          contractByVersion w provider (NextVersion upgradeItem)
          = Ok contract →
          contract ≠ targetContract →
          createCustomPlan GroupVersion_Version ParseSemantic u w upgradeItems
          = Err (ErrContractMismatch (itemName upgradeItem) contract
                   targetContract)))
  ∧ (∀ plan,
       createCustomPlan GroupVersion_Version ParseSemantic u w upgradeItems
       = Ok plan →
       Providers plan = upgradeItems
       ∧ Forall (acceptedItem w items targetContract) upgradeItems).
Proof.
  intros HList Hcore Htc Hsup.
  rewrite (createCustomPlan_resolved _ _ _ _ _ HList Hcore Htc).
  rewrite bool_decide_false by (by intros []).
  split.
  - intros pre i post -> Hpre.
    rewrite (upgradeItems_loop_accepted _ _ _ _ _ _ _ Hpre). simpl.
    split.
    + intros Hnone%matchProvider_None. unfold itemName in Hnone.
      by rewrite Hnone.
    + intros p c Hmatch Hc Hne. unfold itemName in Hmatch.
      rewrite Hmatch, Hc. simpl. by rewrite bool_decide_true.
  - intros plan Hplan.
    destruct (upgradeItems_loop _ _ _ _ _ _ _ _) as [[plan' names]|e]
      eqn:Hloop; [|done].
    destruct (lagging_loop _ _ _ _ _ _); [|done].
    injection Hplan as ->.
    by apply upgradeItems_loop_Ok in Hloop as (Hall & _ & HP & _).
Qed.

(** C3, as amended.  Let a provider of the management cluster be absent
    from the requested items while its installed version resolves to a
    contract other than the resolved target contract.  Then the request is
    never accepted; and when the checks made before pass (the target
    contract is the supported one, every requested item is accepted) and
    the providers listed before it all pass, validation fails with the
    lagging-provider error naming that provider. *)
Theorem createCustomPlan_lagging_provider (w : W)
    (upgradeItems : list UpgradeItem) (items : list Provider)
    (coreProvider : Provider) (targetContract : string)
    (provider : Provider) (contract : string) :
  providerInventory_List u w = Ok items →
  FilterCore items = [coreProvider] →
  contractByVersion w coreProvider (targetVersionOf coreProvider upgradeItems)
  = Ok targetContract →
  provider ∈ items →
  InstanceName provider ∉ (itemName <$> upgradeItems) →
  contractByVersion w provider (Version provider) = Ok contract →
  contract ≠ targetContract →
  (∀ plan,
     createCustomPlan GroupVersion_Version ParseSemantic u w upgradeItems
     ≠ Ok plan)
  ∧ (targetContract = GroupVersion_Version →
     Forall (acceptedItem w items targetContract) upgradeItems →
     ∀ pre post,
       items = pre ++ provider :: post →
       Forall (compliantProvider w targetContract
                 (list_to_set (itemName <$> upgradeItems))) pre →
       createCustomPlan GroupVersion_Version ParseSemantic u w upgradeItems
       = Err (ErrLaggingProvider (InstanceName provider) contract
                targetContract)).
Proof.
  intros HList Hcore Htc Hin Hout Hc Hne.
  rewrite (createCustomPlan_resolved _ _ _ _ _ HList Hcore Htc).
  assert (InstanceName provider
          ∉ (∅ ∪ list_to_set (itemName <$> upgradeItems) : gset string))
    as Hnames.
  { rewrite (left_id_L ∅ (∪)). by rewrite elem_of_list_to_set. }
  split.
  - intros plan. case_bool_decide as Hsup; [done|].
    destruct (upgradeItems_loop _ _ _ _ _ _ _ _) as [[plan' names]|e]
      eqn:Hloop; [|done].
    apply upgradeItems_loop_Ok in Hloop as (_ & _ & _ & ->).
    destruct (lagging_loop _ _ _ _ _ _) as [[]|e] eqn:Hlag; [|done].
    apply lagging_loop_Ok in Hlag.
    rewrite Forall_forall in Hlag.
    destruct (Hlag provider Hin) as [?|Hc']; [done|].
    rewrite Hc in Hc'. by injection Hc'.
  - intros Hsup Hacc pre post -> Hpre.
    rewrite bool_decide_false by (by intros []).
    pose proof (upgradeItems_loop_accepted w (pre ++ provider :: post)
                  targetContract upgradeItems []
                  {| Contract := targetContract; Providers := [] |} ∅ Hacc)
      as Hloop.
    rewrite app_nil_r in Hloop. rewrite Hloop. simpl.
    rewrite (left_id_L ∅ (∪)) in Hnames |- *.
    rewrite (lagging_loop_compliant _ _ _ _ _ Hpre). simpl.
    rewrite bool_decide_false by done.
    rewrite Hc. simpl. by rewrite bool_decide_true.
Qed.

End Validator.

(* ------------------------------------------------------------------ *)
(** ** Runs of the monad of calls *)

Section Runs.

Context {W : Type}.

Lemma trace_bind {A B : Type} (m : M W A) (f : A → M W B) (w : W) :
  trace ((m ≫= f) w)
  = trace (m w)
    ++ match outcome (m w) with
       | Ok a => trace (f a (final (m w)))
       | Err _ => []
       end.
Proof.
  unfold mbind, M_bind, trace, outcome, final.
  destruct (m w) as [[[a|e] w'] t]; simpl; [|by rewrite app_nil_r].
  by destruct (f a w') as [[r w''] t'].
Qed.

Lemma outcome_bind {A B : Type} (m : M W A) (f : A → M W B) (w : W) :
  outcome ((m ≫= f) w)
  = match outcome (m w) with
    | Ok a => outcome (f a (final (m w)))
    | Err e => Err e
    end.
Proof.
  unfold mbind, M_bind, trace, outcome, final.
  destruct (m w) as [[[a|e] w'] t]; simpl; [|done].
  by destruct (f a w') as [[r w''] t'].
Qed.

Lemma mret_bind {A B : Type} (a : A) (f : A → M W B) (w : W) :
  (mret a ≫= f) w = f a w.
Proof.
  unfold mbind, M_bind, mret, M_ret. by destruct (f a w) as [[r w'] t].
Qed.

Lemma emits_ret {A : Type} (P : Event → Prop) (a : A) :
  emits P (mret a : M W A).
Proof. intros w. constructor. Qed.

Lemma emits_fail {A : Type} (P : Event → Prop) (e : error) :
  emits P (fail e : M W A).
Proof. intros w. constructor. Qed.

Lemma emits_lookup {A : Type} (P : Event → Prop) (op : W → result A) :
  emits P (lookup_ op).
Proof. intros w. constructor. Qed.

Lemma emits_call {A : Type} (P : Event → Prop) (ev : Event)
    (op : W → result A * W) :
  P ev → emits P (call ev op).
Proof.
  intros Hev w. unfold call, trace. destruct (op w). simpl.
  by repeat constructor.
Qed.

Lemma emits_bind {A B : Type} (P : Event → Prop) (m : M W A)
    (f : A → M W B) :
  emits P m → (∀ a, emits P (f a)) → emits P (m ≫= f).
Proof.
  intros Hm Hf w. rewrite trace_bind. apply Forall_app. split; [apply Hm|].
  destruct (outcome (m w)); [apply Hf|constructor].
Qed.

Lemma emits_for_range {A : Type} (P : Event → Prop) (xs : list A)
    (body : A → M W ()) :
  (∀ x, emits P (body x)) → emits P (for_range xs body).
Proof.
  intros Hbody. induction xs as [|x xs IH]; simpl.
  - apply emits_ret.
  - apply emits_bind; [apply Hbody|by intros _].
Qed.

Lemma emits_impl {A : Type} (P Q : Event → Prop) (m : M W A) :
  (∀ ev, P ev → Q ev) → emits P m → emits Q m.
Proof. intros HPQ Hm w. eapply Forall_impl; [apply Hm|done]. Qed.

Lemma omap_none_Forall {A B : Type} (f : A → option B) (l : list A) :
  Forall (λ x, f x = None) l → omap f l = [].
Proof. induction 1 as [|x l Hx _ IH]; simpl; [done|]. by rewrite Hx. Qed.

End Runs.

(* ------------------------------------------------------------------ *)
(** ** The rollout *)

Section Rollout.

Context {W ConfigProvider RepositoryClient : Type}.
Context `{SliceSorter}.
Variable GroupVersion_Version : string.
Variable isRetryable : error → bool.
Variable u : providerUpgrader W ConfigProvider RepositoryClient.

Lemma emits_wrapf {A : Type} (P : Event → Prop) (msg : string) (m : M W A) :
  emits P m → emits P (wrapf msg m).
Proof.
  intros Hm w. specialize (Hm w). unfold wrapf, trace in *.
  by destruct (m w) as [[[a|e] w'] t].
Qed.

Lemma emits_retry (P : Event → Prop) (opts : Backoff) (operation : M W ()) :
  emits P operation →
  emits P (retryWithExponentialBackoff isRetryable opts operation).
Proof.
  intros Hop. unfold retryWithExponentialBackoff.
  induction (Steps opts) as [|n IH]; simpl.
  - apply emits_fail.
  - intros w. specialize (Hop w). unfold trace in *.
    destruct (operation w) as [[[a|e] w'] t]; simpl in *; [done|].
    destruct (isRetryable e && bool_decide (n ≠ 0)); simpl; [|done].
    specialize (IH w').
    destruct (retry_loop isRetryable n operation w') as [[r w''] t'].
    simpl in *. apply Forall_app. by split.
Qed.

Lemma scaleDownDeployment_emits (deploy : Deployment) :
  emits (λ ev, isDrainCall ev = true)
        (scaleDownDeployment isRetryable u deploy).
Proof.
  unfold scaleDownDeployment.
  apply emits_bind; [|intros _]; apply emits_wrapf, emits_retry.
  - apply emits_bind; [by apply emits_wrapf, emits_call|].
    intros d. case_bool_decide; [apply emits_ret|].
    by apply emits_wrapf, emits_call.
  - apply emits_bind; [by apply emits_wrapf, emits_call|].
    intros d. case_bool_decide; [apply emits_ret|apply emits_fail].
Qed.

(** A drain records its log line and then only calls of the proxy client. *)
Lemma scaleDownProvider_trace (provider : Provider) (w : W) :
  ∃ t, trace (scaleDownProvider isRetryable u provider w)
       = EvScalingDown provider :: t
       ∧ Forall (λ ev, isDrainCall ev = true) t.
Proof.
  unfold scaleDownProvider. rewrite trace_bind. simpl.
  eexists. split; [done|].
  apply emits_bind; [apply emits_lookup|]. intros _.
  apply emits_bind; [by apply emits_wrapf, emits_call|]. intros ds.
  apply emits_for_range, scaleDownDeployment_emits.
Qed.

Lemma drained_drainCalls (t : list Event) :
  Forall (λ ev, isDrainCall ev = true) t → drained t = [].
Proof.
  intros Ht. apply omap_none_Forall.
  eapply Forall_impl; [done|]. by intros [].
Qed.

Lemma isDrain_drainCalls (t : list Event) :
  Forall (λ ev, isDrainCall ev = true) t →
  Forall (λ ev, isDrain ev = true) t.
Proof. intros Ht. eapply Forall_impl; [done|]. by intros []. Qed.

Lemma withNextVersion_cons_empty (i : UpgradeItem) (ps : list UpgradeItem) :
  NextVersion i = "" → withNextVersion (i :: ps) = withNextVersion ps.
Proof.
  intros Hi. unfold withNextVersion. by rewrite filter_cons_False by auto.
Qed.

Lemma withNextVersion_cons (i : UpgradeItem) (ps : list UpgradeItem) :
  NextVersion i ≠ "" → withNextVersion (i :: ps) = i :: withNextVersion ps.
Proof.
  intros Hi. unfold withNextVersion. by rewrite filter_cons_True by auto.
Qed.

(** Phase A: only drain calls are recorded, and the drains entered are those
    of the items with a next version, in the order of the slice, up to the
    first failure. *)
Lemma scaleDownAll_spec (ps : list UpgradeItem) (w : W) :
  Forall (λ ev, isDrain ev = true) (trace (scaleDownAll isRetryable u ps w))
  ∧ drained (trace (scaleDownAll isRetryable u ps w))
    `prefix_of` (UpgradeItem_Provider <$> withNextVersion ps)
  ∧ (outcome (scaleDownAll isRetryable u ps w) = Ok () →
     drained (trace (scaleDownAll isRetryable u ps w))
     = UpgradeItem_Provider <$> withNextVersion ps).
Proof.
  unfold scaleDownAll. revert w.
  induction ps as [|i ps IH]; intros w.
  - simpl. split; [constructor|]. split; [apply prefix_nil|done].
  - simpl for_range. rewrite trace_bind, outcome_bind.
    case_bool_decide as Hi.
    + rewrite (withNextVersion_cons_empty _ _ Hi). simpl. apply IH.
    + rewrite (withNextVersion_cons _ _ Hi).
      destruct (scaleDownProvider_trace (UpgradeItem_Provider i) w)
        as (t & -> & Ht).
      destruct (outcome (scaleDownProvider isRetryable u _ w)) as [[]|e].
      * destruct (IH (final (scaleDownProvider isRetryable u
                               (UpgradeItem_Provider i) w)))
          as (IH1 & IH2 & IH3).
        simpl. unfold drained in *. rewrite omap_app.
        fold (drained t). rewrite (drained_drainCalls t Ht). simpl.
        split; [|split].
        -- constructor; [done|]. apply Forall_app.
           split; [by apply isDrain_drainCalls|done].
        -- by apply prefix_cons.
        -- intros Hok. by rewrite (IH3 Hok).
      * simpl. unfold drained. rewrite app_nil_r.
        fold (drained t). rewrite (drained_drainCalls t Ht).
        split; [|split].
        -- constructor; [done|]. by apply isDrain_drainCalls.
        -- apply prefix_cons, prefix_nil.
        -- done.
Qed.

Lemma trace_call {A : Type} (ev : Event) (op : W → result A * W) (w : W) :
  trace (call ev op w) = [ev].
Proof. unfold call, trace. by destruct (op w). Qed.

Lemma getUpgradeComponents_trace (i : UpgradeItem) (w : W) :
  Forall (λ ev, isReplace ev = true ∧ deleteOptions [ev] = [])
         (trace (getUpgradeComponents u i w)).
Proof.
  unfold getUpgradeComponents.
  apply emits_bind; [apply emits_lookup|]. intros c.
  apply emits_bind; [apply emits_lookup|]. intros r.
  by apply emits_call.
Qed.

Lemma deleteOptions_none (t : list Event) :
  Forall (λ ev, isReplace ev = true ∧ deleteOptions [ev] = []) t →
  deleteOptions t = [].
Proof.
  intros Ht. apply omap_none_Forall.
  eapply Forall_impl; [done|]. intros ev [_ Hev]. by destruct ev.
Qed.

(** The replacement of one item: the fetch, then one delete with the
    preserving options, then the install. *)
Lemma replace_item_spec (i : UpgradeItem) (w : W) (m : M W ()) :
  m = (components ← getUpgradeComponents u i;
       _ ← call (EvDelete (preservingDelete i))
              (of_error (providerComponents_Delete u (preservingDelete i)));
       call (EvInstall components)
            (of_error (installComponentsAndUpdateInventory u components))) →
  Forall (λ ev, isReplace ev = true) (trace (m w))
  ∧ (deleteOptions (trace (m w)) = [preservingDelete i]
     ∨ deleteOptions (trace (m w)) = [] ∧ ∃ e, outcome (m w) = Err e).
Proof.
  intros ->. rewrite trace_bind, outcome_bind.
  pose proof (getUpgradeComponents_trace i w) as Hfetch.
  pose proof (deleteOptions_none _ Hfetch) as Hnone.
  assert (Forall (λ ev, isReplace ev = true)
                 (trace (getUpgradeComponents u i w))) as Hrep.
  { eapply Forall_impl; [done|]. by intros ev []. }
  destruct (outcome (getUpgradeComponents u i w)) as [c|e].
  - rewrite trace_bind, trace_call. split.
    + apply Forall_app. split; [done|]. constructor; [done|].
      destruct (outcome _); [|constructor].
      rewrite trace_call. by repeat constructor.
    + left. unfold deleteOptions in *. rewrite omap_app, Hnone. simpl.
      f_equal. apply omap_none_Forall.
      destruct (outcome _); [|constructor].
      rewrite trace_call. by repeat constructor.
  - rewrite app_nil_r. split; [done|]. right. split; [done|]. by exists e.
Qed.

(** Phase B: only fetches, deletes and installs are recorded, and the deletes
    are those of the items with a next version, in the order of the slice
    and with the preserving options, up to the first failure. *)
Lemma replaceAll_spec (ps : list UpgradeItem) (w : W) :
  Forall (λ ev, isReplace ev = true) (trace (replaceAll u ps w))
  ∧ deleteOptions (trace (replaceAll u ps w))
    `prefix_of` (preservingDelete <$> withNextVersion ps).
Proof.
  unfold replaceAll. revert w.
  induction ps as [|i ps IH]; intros w.
  - simpl. split; [constructor|apply prefix_nil].
  - simpl for_range. rewrite trace_bind.
    case_bool_decide as Hi.
    + rewrite (withNextVersion_cons_empty _ _ Hi). simpl. apply IH.
    + rewrite (withNextVersion_cons _ _ Hi).
      match goal with
      | |- context [trace (?m w)] =>
          destruct (replace_item_spec i w m eq_refl) as (Hrep & Hdel)
      end.
      unfold deleteOptions in *. rewrite omap_app.
      destruct Hdel as [Hdel|[Hdel [e He]]]; rewrite Hdel.
      * match goal with
        | |- context [match outcome ?r with _ => _ end] =>
            destruct (outcome r) as [[]|e]
        end.
        -- match goal with
           | |- context [trace (for_range ps _ ?w')] =>
               destruct (IH w') as [IH1 IH2]
           end.
           split; [apply Forall_app; by split|].
           simpl. by apply prefix_cons.
        -- rewrite app_nil_r. split; [done|].
           simpl. apply prefix_cons, prefix_nil.
      * rewrite He, app_nil_r. split; [done|]. apply prefix_nil.
Qed.

#[local] Abbreviation doUpgrade :=
  (doUpgrade GroupVersion_Version isRetryable u).

(** The plan as [doUpgrade] leaves it once the guard has passed. *)
#[local] Abbreviation sortedPlan upgradePlan :=
  {| Contract := Contract upgradePlan;
     Providers := sort_Slice lessByOrder (Providers upgradePlan) |}.

(** [doUpgrade] by the outcome of its guard. *)
Lemma doUpgrade_unfold (upgradePlan : UpgradePlan) (w : W) :
  doUpgrade upgradePlan w
  = match (if bool_decide (Contract upgradePlan = GroupVersion_Version)
           then providerInventory_CheckSingleProviderInstance u w
           else None) with
    | Some e => ((Err e, w, []), upgradePlan)
    | None =>
        (upgradePhases GroupVersion_Version isRetryable u
           (sortedPlan upgradePlan) (Providers (sortedPlan upgradePlan)) w,
         sortedPlan upgradePlan)
    end.
Proof.
  change (doUpgrade upgradePlan w) with
    (match checkSingleProviderInstance GroupVersion_Version u upgradePlan w
     with
     | (Err err, w', t) => ((Err err, w', t), upgradePlan)
     | (Ok _, w', t) =>
         let '(r, w'', t') :=
           upgradePhases GroupVersion_Version isRetryable u
             (sortedPlan upgradePlan) (Providers (sortedPlan upgradePlan)) w'
         in ((r, w'', t ++ t'), sortedPlan upgradePlan)
     end).
  unfold checkSingleProviderInstance, lookup_.
  case_bool_decide; simpl.
  - destruct (providerInventory_CheckSingleProviderInstance u w); simpl;
      [done|].
    by destruct (upgradePhases _ _ _ _ _ _) as [[r w'] t].
  - by destruct (upgradePhases _ _ _ _ _ _) as [[r w'] t].
Qed.

Lemma deleteWebhookNamespace_trace (upgradePlan : UpgradePlan) (w : W) :
  trace (deleteWebhookNamespace GroupVersion_Version u upgradePlan w) = []
  ∨ trace (deleteWebhookNamespace GroupVersion_Version u upgradePlan w)
    = [EvDeleteWebhookNamespace].
Proof.
  unfold deleteWebhookNamespace. case_bool_decide; [right|by left].
  apply trace_call.
Qed.

(** The calls of the three stages: those of Phase A, then those of Phase B,
    then at most the removal of the webhook namespace; a later stage
    records calls only if Phase A returned no error. *)
Lemma upgradePhases_trace (upgradePlan : UpgradePlan)
    (ps : list UpgradeItem) (w : W) :
  ∃ tB tC,
    trace (upgradePhases GroupVersion_Version isRetryable u upgradePlan ps w)
    = trace (scaleDownAll isRetryable u ps w) ++ tB ++ tC
    ∧ Forall (λ ev, isReplace ev = true) tB
    ∧ deleteOptions tB `prefix_of` (preservingDelete <$> withNextVersion ps)
    ∧ (tC = [] ∨ tC = [EvDeleteWebhookNamespace])
    ∧ (tB ++ tC ≠ [] → outcome (scaleDownAll isRetryable u ps w) = Ok ()).
Proof.
  unfold upgradePhases. rewrite trace_bind.
  destruct (outcome (scaleDownAll isRetryable u ps w)) as [[]|e].
  - rewrite trace_bind.
    set (w' := final (scaleDownAll isRetryable u ps w)).
    destruct (replaceAll_spec ps w') as [HB1 HB2].
    exists (trace (replaceAll u ps w')).
    exists (match outcome (replaceAll u ps w') with
            | Ok _ =>
                trace (deleteWebhookNamespace GroupVersion_Version u
                         upgradePlan (final (replaceAll u ps w')))
            | Err _ => []
            end).
    split; [done|]. split; [done|]. split; [done|]. split; [|done].
    destruct (outcome _); [apply deleteWebhookNamespace_trace|by left].
  - exists [], []. split; [done|]. split; [constructor|].
    split; [apply prefix_nil|]. split; [by left|done].
Qed.

Lemma phases_without_next_version (upgradePlan : UpgradePlan)
    (ps : list UpgradeItem) (w : W) :
  Forall (λ i, NextVersion i = "") ps →
  scaleDownAll isRetryable u ps w = (Ok (), w, [])
  ∧ replaceAll u ps w = (Ok (), w, []).
Proof.
  unfold scaleDownAll, replaceAll.
  induction 1 as [|i ps Hi _ [IHA IHB]]; simpl; [done|].
  rewrite bool_decide_true by done.
  by rewrite !mret_bind, IHA, IHB.
Qed.

Lemma lessByOrder_StrictWeakOrder : StrictWeakOrder lessByOrder.
Proof.
  unfold StrictWeakOrder, lessByOrder. split; [|split].
  - intros a. apply bool_decide_eq_false. lia.
  - intros a b c ?%bool_decide_eq_true ?%bool_decide_eq_true.
    apply bool_decide_eq_true. lia.
  - intros a b c ?%bool_decide_eq_false ?%bool_decide_eq_false
      ?%bool_decide_eq_false ?%bool_decide_eq_false.
    split; apply bool_decide_eq_false; lia.
Qed.

(** What [sort.Slice] leaves in the slice of the plan. *)
Lemma sorted_Providers (upgradePlan : UpgradePlan) :
  sort_Slice lessByOrder (Providers upgradePlan) ≡ₚ Providers upgradePlan
  ∧ StronglySorted (λ a b, itemOrder a ≤ itemOrder b)
      (sort_Slice lessByOrder (Providers upgradePlan)).
Proof.
  split; [apply sort_Slice_Permutation|].
  apply Sorted_StronglySorted.
  { intros a b c. lia. }
  pose proof (sort_Slice_Sorted lessByOrder (Providers upgradePlan)
                lessByOrder_StrictWeakOrder) as Hs.
  induction Hs as [|a l _ IH Hhd]; constructor; [done|].
  destruct Hhd as [|b l Hab]; constructor.
  unfold lessByOrder in Hab. apply bool_decide_eq_false in Hab.
  unfold itemOrder. lia.
Qed.

Lemma StronglySorted_withNextVersion (ps : list UpgradeItem) :
  StronglySorted (λ a b, itemOrder a ≤ itemOrder b) ps →
  StronglySorted (λ p q, Order (GetProviderType p) ≤ Order (GetProviderType q))
    (UpgradeItem_Provider <$> withNextVersion ps).
Proof.
  induction 1 as [|i ps _ IH Hall]; [constructor|].
  unfold withNextVersion in *. rewrite filter_cons.
  destruct (decide (NextVersion i ≠ "")); [|done].
  rewrite fmap_cons. constructor; [done|].
  apply Forall_fmap, Forall_forall. intros j [_ Hj]%list_elem_of_filter.
  rewrite Forall_forall in Hall. by apply Hall.
Qed.

Lemma prefix_fmap {A B : Type} (f : A → B) (l1 l2 : list A) :
  l1 `prefix_of` l2 → f <$> l1 `prefix_of` f <$> l2.
Proof. intros [k ->]. rewrite fmap_app. by eexists. Qed.

Lemma deleteOptions_drains (t : list Event) :
  Forall (λ ev, isDrain ev = true) t → deleteOptions t = [].
Proof.
  intros Ht. apply omap_none_Forall.
  eapply Forall_impl; [done|]. by intros [].
Qed.

Lemma drained_replaces (t : list Event) :
  Forall (λ ev, isReplace ev = true) t → drained t = [].
Proof.
  intros Ht. apply omap_none_Forall.
  eapply Forall_impl; [done|]. by intros [].
Qed.

(** C5.  On a plan whose contract is the value the guard compares with
    (the constant [clusterv1.GroupVersion.Version], a parameter here, and
    the contract of every plan that [ApplyPlan] and [ApplyCustomPlan] hand
    over), [doUpgrade] begins by asking the inventory whether every
    provider has a single instance: whatever error the inventory reports is
    returned at once, no call having been recorded and the cluster and the
    plan left as they were; in particular when two entries of the inventory
    are instances of the same provider, the inventory check reports the
    multiple-instances error and that is the error returned. *)
Theorem doUpgrade_single_instance_guard (upgradePlan : UpgradePlan) (w : W) :
  Contract upgradePlan = GroupVersion_Version →
  (∀ e,
     providerInventory_CheckSingleProviderInstance u w = Some e →
     doUpgrade upgradePlan w = ((Err e, w, []), upgradePlan))
  ∧ (∀ (items : list Provider) (i j : nat) (p q : Provider),
       providerInventory_List u w = Ok items →
       providerInventory_CheckSingleProviderInstance u w
       = CheckSingleProviderInstance items →
       i ≠ j → items !! i = Some p → items !! j = Some q →
       ManifestLabel p = ManifestLabel q →
       doUpgrade upgradePlan w
       = ((Err ErrMultipleInstancesNotSupported, w, []), upgradePlan)).
Proof.
  intros HC.
  assert (∀ e,
            providerInventory_CheckSingleProviderInstance u w = Some e →
            doUpgrade upgradePlan w = ((Err e, w, []), upgradePlan)) as Hguard.
  { intros e He. rewrite doUpgrade_unfold.
    by rewrite bool_decide_true, He by done. }
  split; [done|].
  intros items i j p q _ Hcheck Hij Hp Hq Hlabel.
  apply Hguard. rewrite Hcheck. unfold CheckSingleProviderInstance.
  rewrite bool_decide_false; [done|]. intros Hnodup.
  apply Hij. apply (NoDup_lookup _ i j (ManifestLabel p) Hnodup).
  - by rewrite list_lookup_fmap, Hp.
  - by rewrite list_lookup_fmap, Hq, Hlabel.
Qed.

(** C6, as amended.  Executing a plan none of whose items has a next
    version records no drain, no fetch, no delete and no install, and
    leaves the cluster as it was up to the removal of the webhook
    namespace: the only call there can be is that removal. *)
Theorem doUpgrade_without_next_version (upgradePlan : UpgradePlan) (w : W) :
  Forall (λ i, NextVersion i = "") (Providers upgradePlan) →
  (trace (doUpgrade upgradePlan w).1 = []
   ∨ trace (doUpgrade upgradePlan w).1 = [EvDeleteWebhookNamespace])
  ∧ Forall (λ ev, isDrain ev = false ∧ isReplace ev = false)
      (trace (doUpgrade upgradePlan w).1)
  ∧ drained (trace (doUpgrade upgradePlan w).1) = []
  ∧ deleted (trace (doUpgrade upgradePlan w).1) = [].
Proof.
  intros Hall.
  assert (trace (doUpgrade upgradePlan w).1 = []
          ∨ trace (doUpgrade upgradePlan w).1 = [EvDeleteWebhookNamespace])
    as Ht.
  { rewrite doUpgrade_unfold.
    destruct (if bool_decide _ then _ else _); [by left|]. simpl.
    assert (Forall (λ i, NextVersion i = "")
              (sort_Slice lessByOrder (Providers upgradePlan))) as Hs.
    { by rewrite sort_Slice_Permutation. }
    destruct (phases_without_next_version upgradePlan _ w Hs) as [HA HB].
    unfold upgradePhases. rewrite trace_bind, HA.
    change (final (Ok (), w, [])) with w. simpl.
    rewrite trace_bind, HB.
    change (final (Ok (), w, [])) with w. simpl.
    apply deleteWebhookNamespace_trace. }
  split; [done|].
  destruct Ht as [-> | ->]; by repeat constructor.
Qed.

(** C7.  The calls recorded by one [doUpgrade] split in two: first calls
    of Phase A only, then no call of Phase A.  When anything at all follows
    Phase A, the whole of Phase A has returned without error, having
    entered the drain of every item with a next version; and no fetch,
    delete or install is recorded before a call of a drain. *)
Theorem doUpgrade_drains_before_replacements (upgradePlan : UpgradePlan)
    (w : W) :
  ∃ tA tB,
    trace (doUpgrade upgradePlan w).1 = tA ++ tB
    ∧ Forall (λ ev, isDrain ev = true) tA
    ∧ Forall (λ ev, isDrain ev = false) tB
    ∧ (tB ≠ [] →
       tA = trace (scaleDownAll isRetryable u
                     (Providers (doUpgrade upgradePlan w).2) w)
       ∧ outcome (scaleDownAll isRetryable u
                    (Providers (doUpgrade upgradePlan w).2) w) = Ok ()
       ∧ drained tA
         = UpgradeItem_Provider
           <$> withNextVersion (Providers (doUpgrade upgradePlan w).2))
    ∧ (∀ i j e1 e2,
         trace (doUpgrade upgradePlan w).1 !! i = Some e1 →
         trace (doUpgrade upgradePlan w).1 !! j = Some e2 →
         isReplace e1 = true → isDrain e2 = true → j < i).
Proof.
  assert (∃ tA tB,
    trace (doUpgrade upgradePlan w).1 = tA ++ tB
    ∧ Forall (λ ev, isDrain ev = true) tA
    ∧ Forall (λ ev, isDrain ev = false) tB
    ∧ (tB ≠ [] →
       tA = trace (scaleDownAll isRetryable u
                     (Providers (doUpgrade upgradePlan w).2) w)
       ∧ outcome (scaleDownAll isRetryable u
                    (Providers (doUpgrade upgradePlan w).2) w) = Ok ()
       ∧ drained tA
         = UpgradeItem_Provider
           <$> withNextVersion (Providers (doUpgrade upgradePlan w).2)))
    as (tA & tB & Ht & HA & HB & Hdone).
  { rewrite doUpgrade_unfold.
    destruct (if bool_decide _ then _ else _).
    { exists [], []. by repeat split. }
    simpl.
    destruct (upgradePhases_trace (sortedPlan upgradePlan)
                (sort_Slice lessByOrder (Providers upgradePlan)) w)
      as (tB & tC & Ht & HB & _ & HC & Hok).
    destruct (scaleDownAll_spec
                (sort_Slice lessByOrder (Providers upgradePlan)) w)
      as (HA1 & _ & HA3).
    eexists _, (tB ++ tC). split; [exact Ht|]. split; [done|]. split.
    - apply Forall_app. split.
      + eapply Forall_impl; [exact HB|]. by intros [].
      + destruct HC as [-> | ->]; by repeat constructor.
    - intros Hne. specialize (Hok Hne). auto. }
  exists tA, tB. repeat (split; [done|]).
  intros i j e1 e2. rewrite Ht. intros H1 H2 Hrep Hdrain.
  apply lookup_app_Some in H1 as [H1|[Hle H1]].
  - rewrite Forall_lookup in HA. specialize (HA _ _ H1).
    by destruct e1.
  - apply lookup_app_Some in H2 as [H2|[_ H2]].
    + apply lookup_lt_Some in H2. lia.
    + rewrite Forall_lookup in HB. specialize (HB _ _ H2). congruence.
Qed.

(** The deletes recorded by [doUpgrade]. *)
Lemma doUpgrade_deletes (upgradePlan : UpgradePlan) (w : W) :
  deleteOptions (trace (doUpgrade upgradePlan w).1)
  `prefix_of` (preservingDelete
               <$> withNextVersion (Providers (doUpgrade upgradePlan w).2)).
Proof.
  rewrite doUpgrade_unfold.
  destruct (if bool_decide _ then _ else _); [apply prefix_nil|].
  simpl.
  destruct (upgradePhases_trace (sortedPlan upgradePlan)
              (sort_Slice lessByOrder (Providers upgradePlan)) w)
    as (tB & tC & -> & _ & HB & HC & _).
  destruct (scaleDownAll_spec
              (sort_Slice lessByOrder (Providers upgradePlan)) w)
    as (HA & _ & _).
  unfold deleteOptions in *. rewrite !omap_app.
  fold (deleteOptions (trace (scaleDownAll isRetryable u
          (sort_Slice lessByOrder (Providers upgradePlan)) w))).
  rewrite (deleteOptions_drains _ HA). simpl.
  by destruct HC as [-> | ->]; simpl; rewrite app_nil_r.
Qed.

(** C9.  Every delete recorded by [doUpgrade] is the delete of the old
    components of an item with a next version, in the order of the sorted
    slice, issued with options that include neither the namespace nor the
    CRDs and that skip the inventory. *)
Theorem doUpgrade_delete_preserves (upgradePlan : UpgradePlan) (w : W) :
  deleteOptions (trace (doUpgrade upgradePlan w).1)
  `prefix_of` (preservingDelete
               <$> withNextVersion (Providers (doUpgrade upgradePlan w).2))
  ∧ Forall (λ o, IncludeNamespace o = false
                 ∧ IncludeCRDs o = false
                 ∧ SkipInventory o = true)
      (deleteOptions (trace (doUpgrade upgradePlan w).1)).
Proof.
  assert (deleteOptions (trace (doUpgrade upgradePlan w).1)
          `prefix_of` (preservingDelete
                       <$> withNextVersion
                             (Providers (doUpgrade upgradePlan w).2)))
    as Hpre.
  { apply doUpgrade_deletes. }
  split; [done|].
  destruct Hpre as [k Hk].
  assert (Forall (λ o, IncludeNamespace o = false
                       ∧ IncludeCRDs o = false
                       ∧ SkipInventory o = true)
            (preservingDelete
             <$> withNextVersion (Providers (doUpgrade upgradePlan w).2)))
    as Hall.
  { apply Forall_fmap, Forall_forall. by intros i _. }
  rewrite Hk in Hall. by apply Forall_app in Hall as [? _].
Qed.

(** C10.  [doUpgrade] returns without sorting only when its guard fails: the
    contract of the plan is the contract of this release and the inventory
    check reports an error, which is returned with no call made and the
    plan as given.  In every other run, whatever its outcome, [doUpgrade]
    leaves in the plan of the caller a rearrangement of its items in which
    the order of the provider types never decreases, under the same
    contract.  The drains entered and the deletes issued follow the slice
    the plan then holds, restricted to the items with a next version: both
    sequences are in non-decreasing order of provider type, whatever the
    order of the items given. *)
Theorem doUpgrade_sorts_providers (upgradePlan : UpgradePlan) (w : W) :
  (∀ e,
     Contract upgradePlan = GroupVersion_Version →
     providerInventory_CheckSingleProviderInstance u w = Some e →
     doUpgrade upgradePlan w = ((Err e, w, []), upgradePlan))
  ∧ (Contract upgradePlan ≠ GroupVersion_Version
     ∨ providerInventory_CheckSingleProviderInstance u w = None →
     Contract (doUpgrade upgradePlan w).2 = Contract upgradePlan
     ∧ Providers (doUpgrade upgradePlan w).2 ≡ₚ Providers upgradePlan
     ∧ Sorted (λ a b, itemOrder a ≤ itemOrder b)
         (Providers (doUpgrade upgradePlan w).2))
  ∧ drained (trace (doUpgrade upgradePlan w).1)
    `prefix_of` (UpgradeItem_Provider
                 <$> withNextVersion (Providers (doUpgrade upgradePlan w).2))
  ∧ deleted (trace (doUpgrade upgradePlan w).1)
    `prefix_of` (UpgradeItem_Provider
                 <$> withNextVersion (Providers (doUpgrade upgradePlan w).2))
  ∧ Sorted (λ p q, Order (GetProviderType p) ≤ Order (GetProviderType q))
      (drained (trace (doUpgrade upgradePlan w).1))
  ∧ Sorted (λ p q, Order (GetProviderType p) ≤ Order (GetProviderType q))
      (deleted (trace (doUpgrade upgradePlan w).1)).
Proof.
  pose proof (doUpgrade_deletes upgradePlan w) as Hdel.
  rewrite doUpgrade_unfold in *.
  destruct (if bool_decide _ then _ else _) as [e|] eqn:Hguard.
  { case_bool_decide as HC; [|done].
    split; [intros e' _ He'; congruence|].
    split; [intros [Hne|Hnone]; [done|congruence]|]. simpl.
    split; [apply prefix_nil|]. split; [apply prefix_nil|].
    split; constructor. }
  assert (∀ e, Contract upgradePlan = GroupVersion_Version →
               providerInventory_CheckSingleProviderInstance u w ≠ Some e)
    as Hpass.
  { intros e HC He. by rewrite bool_decide_true, He in Hguard. }
  simpl in *.
  destruct (sorted_Providers upgradePlan) as [Hperm Hsorted].
  pose proof (StronglySorted_withNextVersion _ Hsorted) as Hwnv.
  assert (drained (trace (upgradePhases GroupVersion_Version isRetryable u
                            (sortedPlan upgradePlan)
                            (sort_Slice lessByOrder (Providers upgradePlan))
                            w))
          `prefix_of` (UpgradeItem_Provider
                       <$> withNextVersion
                             (sort_Slice lessByOrder (Providers upgradePlan))))
    as Hdr.
  { destruct (upgradePhases_trace (sortedPlan upgradePlan)
                (sort_Slice lessByOrder (Providers upgradePlan)) w)
      as (tB & tC & -> & HB & _ & HC & _).
    destruct (scaleDownAll_spec
                (sort_Slice lessByOrder (Providers upgradePlan)) w)
      as (_ & HA & _).
    unfold drained in *. rewrite !omap_app.
    fold (drained tB). rewrite (drained_replaces _ HB). simpl.
    by destruct HC as [-> | ->]; simpl; rewrite app_nil_r. }
  assert (deleted (trace (upgradePhases GroupVersion_Version isRetryable u
                            (sortedPlan upgradePlan)
                            (sort_Slice lessByOrder (Providers upgradePlan))
                            w))
          `prefix_of` (UpgradeItem_Provider
                       <$> withNextVersion
                             (sort_Slice lessByOrder (Providers upgradePlan))))
    as Hdl.
  { unfold deleted. apply (prefix_fmap do_Provider) in Hdel.
    by rewrite <- list_fmap_compose in Hdel. }
  split; [intros e HC He; by destruct (Hpass e HC)|].
  split; [intros _; split; [done|]; split;
          [done|by apply StronglySorted_Sorted]|].
  split; [done|]. split; [done|].
  split; apply StronglySorted_Sorted.
  - destruct Hdr as [k Hk]. rewrite Hk in Hwnv.
    by apply StronglySorted_app_1_l in Hwnv.
  - destruct Hdl as [k Hk]. rewrite Hk in Hwnv.
    by apply StronglySorted_app_1_l in Hwnv.
Qed.

End Rollout.

(* ------------------------------------------------------------------ *)
(** ** The theorems on concrete fleets *)

(** Settles a decidable proposition by running its decision procedure. *)
Ltac decide_by_compute :=
  match goal with
  | |- ?P => refine (bool_decide_unpack P _); vm_compute; exact I
  end.

Section OnTheFleet.

Import Scenario.

#[local] Abbreviation Plan_ := (Plan Fake.versionTag Fake.upgrader).
#[local] Abbreviation createCustomPlan_ gv :=
  (createCustomPlan gv Fake.ParseSemantic Fake.upgrader).
#[local] Abbreviation contractByVersion_ :=
  (getProviderContractByVersion Fake.ParseSemantic Fake.upgrader).
#[local] Abbreviation doUpgrade_ gv :=
  (doUpgrade gv Fake.isRetryable Fake.upgrader).

(** [Plan_drop_rule] on the fleet: of the candidate plans for v1alpha4 and
    v1alpha5 only the first is returned. *)
Lemma Plan_drop_rule_witness :
  Plan_ fleet = Ok [planV1alpha4]
  ∧ ∃ (items : list Provider) (coreProvider : Provider)
      (coreUpgradeInfo : upgradeInfo) (candidates : list UpgradePlan),
      providerInventory_List Fake.upgrader fleet = Ok items
      ∧ FilterCore items = [coreProvider]
      ∧ getUpgradeInfo Fake.upgrader fleet coreProvider = Ok coreUpgradeInfo
      ∧ Forall2 (λ contract plan,
                   getUpgradePlan Fake.versionTag Fake.upgrader fleet items
                     contract = Ok plan)
                (getContractsForUpgrade coreUpgradeInfo) candidates
      ∧ [planV1alpha4]
        = filter (λ plan,
                    ¬ (Exists (λ i, NextVersion i = "") (Providers plan)
                       ∧ Contract plan ≠ currentContract coreUpgradeInfo))
                 candidates
      ∧ (∀ plan, plan ∈ candidates →
           (plan ∉ [planV1alpha4]
            ↔ (∃ i, i ∈ Providers plan ∧ NextVersion i = "")
              ∧ Contract plan ≠ currentContract coreUpgradeInfo))
      ∧ (∀ plan, plan ∈ candidates →
           (∃ i, i ∈ Providers plan ∧ NextVersion i = "") →
           Contract plan = currentContract coreUpgradeInfo →
           plan ∈ [planV1alpha4])
      ∧ (∀ plan, plan ∈ candidates →
           (∀ i, i ∈ Providers plan → NextVersion i ≠ "") →
           plan ∈ [planV1alpha4])
      ∧ (∀ plan, plan ∈ [planV1alpha4] →
           Contract plan ≠ currentContract coreUpgradeInfo →
           ∀ i, i ∈ Providers plan → NextVersion i ≠ "").
Proof.
  assert (Plan_ fleet = Ok [planV1alpha4]) as HPlan
    by (vm_compute; reflexivity).
  split; [exact HPlan|].
  exact (Plan_drop_rule Fake.versionTag Fake.upgrader fleet [planV1alpha4]
           HPlan).
Defined.

(** On the fleet whose control plane provider has nothing newer, the plan
    of the current contract is partial and is kept, and the plan of
    v1alpha5, partial as well, is dropped. *)
Example Plan_keeps_partial_plan_of_current_contract :
  Plan_ fleetNoNewerControlPlane
  = Ok [ {| Contract := "v1alpha4";
            Providers := [ mkUpgradeItem controlPlane "";
                           mkUpgradeItem core "v0.4.5" ] |} ]
  ∧ getUpgradePlan Fake.versionTag Fake.upgrader fleetNoNewerControlPlane
      (Fake.inventory fleetNoNewerControlPlane) "v1alpha5"
    = Ok {| Contract := "v1alpha5";
            Providers := [ mkUpgradeItem controlPlane "";
                           mkUpgradeItem core "v0.5.0" ] |}.
Proof. split; vm_compute; reflexivity. Qed.

(** On the fleet whose providers have all released under v1alpha5, the plan
    of v1alpha5 has a next version for every item and is kept beside the
    plan of the current contract. *)
Example Plan_keeps_full_plan_of_new_contract :
  Plan_ fleetAllNewer
  = Ok [ {| Contract := "v1alpha4";
            Providers := [ mkUpgradeItem controlPlane "v0.4.5";
                           mkUpgradeItem core "v0.4.5" ] |};
         {| Contract := "v1alpha5";
            Providers := [ mkUpgradeItem controlPlane "v0.5.0";
                           mkUpgradeItem core "v0.5.0" ] |} ].
Proof. vm_compute; reflexivity. Qed.

(** [createCustomPlan_target_contract] on the fleet: the core provider is
    requested at v0.5.0, of contract v1alpha5, which a release supporting
    v1beta1 refuses. *)
Lemma createCustomPlan_target_contract_witness :
  providerInventory_List Fake.upgrader fleet = Ok (Fake.inventory fleet)
  ∧ FilterCore (Fake.inventory fleet) = [core]
  ∧ createCustomPlan_ v1beta1 fleet [mkUpgradeItem core "v0.5.0"]
    = Err (ErrUnsupportedContract v1beta1 "v1alpha5").
Proof.
  split; [reflexivity|]. split; [reflexivity|].
  destruct (createCustomPlan_target_contract v1beta1 Fake.ParseSemantic
              Fake.upgrader fleet [mkUpgradeItem core "v0.5.0"]
              (Fake.inventory fleet) core eq_refl eq_refl)
    as (_ & Hunsupported & _).
  apply Hunsupported; [vm_compute; reflexivity|discriminate].
Defined.

(** The claim of C3 fails as stated: with the core provider requested at
    v0.5.0 the control plane provider, omitted from the request, is left
    on another contract than the target, and still the error returned by a
    release supporting v1beta1 is the unsupported-contract error; and with
    a release supporting v1alpha5, on a request that also names a provider
    unknown to the fleet, it is the unknown-provider error.  Neither is a
    lagging-provider error. *)
Lemma createCustomPlan_lagging_provider_not_reported :
  controlPlane ∈ Fake.inventory fleet
  ∧ contractByVersion_ fleet controlPlane (Version controlPlane)
    = Ok "v1alpha4"
  ∧ contractByVersion_ fleet core "v0.5.0" = Ok "v1alpha5"
  ∧ (InstanceName controlPlane
     ∉ (itemName <$> [mkUpgradeItem core "v0.5.0"]))
  ∧ createCustomPlan_ v1beta1 fleet [mkUpgradeItem core "v0.5.0"]
    = Err (ErrUnsupportedContract "v1beta1" "v1alpha5")
  ∧ (InstanceName controlPlane
     ∉ (itemName
        <$> [mkUpgradeItem aws "v0.5.0"; mkUpgradeItem core "v0.5.0"]))
  ∧ createCustomPlan_ "v1alpha5" fleet
      [mkUpgradeItem aws "v0.5.0"; mkUpgradeItem core "v0.5.0"]
    = Err (ErrUnknownProvider (InstanceName aws)).
Proof.
  split; [decide_by_compute|].
  split; [vm_compute; reflexivity|].
  split; [vm_compute; reflexivity|].
  split; [decide_by_compute|].
  split; [vm_compute; reflexivity|].
  split; [decide_by_compute|].
  vm_compute; reflexivity.
Qed.

(** [createCustomPlan_lagging_provider] on the fleet, for a release
    supporting v1alpha5: the request for the core provider alone is refused
    with the lagging-provider error naming the control plane provider. *)
Lemma createCustomPlan_lagging_provider_witness :
  createCustomPlan_ "v1alpha5" fleet [mkUpgradeItem core "v0.5.0"]
  = Err (ErrLaggingProvider (InstanceName controlPlane) "v1alpha4"
           "v1alpha5").
Proof.
  destruct (createCustomPlan_lagging_provider "v1alpha5" Fake.ParseSemantic
              Fake.upgrader fleet [mkUpgradeItem core "v0.5.0"]
              (Fake.inventory fleet) core "v1alpha5" controlPlane "v1alpha4")
    as [_ Hlagging].
  - reflexivity.
  - reflexivity.
  - vm_compute; reflexivity.
  - decide_by_compute.
  - decide_by_compute.
  - vm_compute; reflexivity.
  - discriminate.
  - apply (Hlagging eq_refl) with (pre := []) (post := [core]).
    + constructor; [|constructor].
      exists core. split; vm_compute; reflexivity.
    + reflexivity.
    + constructor.
Defined.

(** The claim of C4 fails as stated: a requested item matches no provider
    of the fleet, and the error is not the unknown-provider error, once
    because the target contract is not the supported one and once because
    an item requested before it resolves to another contract. *)
Lemma createCustomPlan_unknown_provider_not_reported :
  (∀ p, p ∈ Fake.inventory fleet → InstanceName p ≠ InstanceName aws)
  ∧ createCustomPlan_ v1beta1 fleet [mkUpgradeItem aws "v0.4.5"]
    = Err (ErrUnsupportedContract "v1beta1" "v1alpha4")
  ∧ createCustomPlan_ "v1alpha5" fleet
      [ mkUpgradeItem core "v0.5.0"; mkUpgradeItem controlPlane "v0.4.5";
        mkUpgradeItem aws "v0.5.0" ]
    = Err (ErrContractMismatch (InstanceName controlPlane) "v1alpha4"
             "v1alpha5").
Proof.
  split.
  - apply Forall_forall. repeat constructor; by vm_compute.
  - split; vm_compute; reflexivity.
Qed.

(** [createCustomPlan_requested_items] on the fleet, for a release
    supporting v1alpha5: the core provider is accepted and the control
    plane provider, requested at a version of contract v1alpha4, is
    refused with the contract-mismatch error. *)
Lemma createCustomPlan_requested_items_witness :
  createCustomPlan_ "v1alpha5" fleet
    [ mkUpgradeItem core "v0.5.0"; mkUpgradeItem controlPlane "v0.4.5";
      mkUpgradeItem aws "v0.5.0" ]
  = Err (ErrContractMismatch (itemName (mkUpgradeItem controlPlane "v0.4.5"))
           "v1alpha4" "v1alpha5").
Proof.
  destruct (createCustomPlan_requested_items "v1alpha5" Fake.ParseSemantic
              Fake.upgrader fleet
              [ mkUpgradeItem core "v0.5.0";
                mkUpgradeItem controlPlane "v0.4.5";
                mkUpgradeItem aws "v0.5.0" ]
              (Fake.inventory fleet) core "v1alpha5")
    as [Hfirst _].
  - reflexivity.
  - reflexivity.
  - vm_compute; reflexivity.
  - reflexivity.
  - destruct (Hfirst [mkUpgradeItem core "v0.5.0"]
                (mkUpgradeItem controlPlane "v0.4.5")
                [mkUpgradeItem aws "v0.5.0"]) as [_ Hmismatch].
    + reflexivity.
    + constructor; [|constructor].
      exists core. split; vm_compute; reflexivity.
    + apply (Hmismatch controlPlane "v1alpha4");
        [vm_compute; reflexivity|vm_compute; reflexivity|discriminate].
Defined.

(** [doUpgrade_single_instance_guard] on the fleet with two instances of
    the control plane provider, for a plan of the contract of this release:
    the rollout stops at the guard. *)
Lemma doUpgrade_single_instance_guard_witness :
  Contract planV1beta1 = v1beta1
  ∧ doUpgrade_ v1beta1 planV1beta1 fleetTwoInstances
    = ((Err ErrMultipleInstancesNotSupported, fleetTwoInstances, []),
       planV1beta1).
Proof.
  split; [reflexivity|].
  destruct (doUpgrade_single_instance_guard v1beta1 Fake.isRetryable
              Fake.upgrader planV1beta1 fleetTwoInstances eq_refl)
    as [_ Hguard].
  apply (Hguard (Fake.inventory fleetTwoInstances) 0 2 controlPlane
           (mkProvider "kubeadm" ControlPlaneProviderType "v0.4.2"
              "tenant-system"));
    [reflexivity|reflexivity|discriminate|reflexivity|reflexivity
    |reflexivity].
Defined.

(** The claim of C6 fails as stated: every item of the plan asks for the
    version that is installed, and the rollout drains both providers,
    deletes the components of both and installs them again. *)
Lemma doUpgrade_same_version_is_not_a_no_op :
  Forall (λ i, NextVersion i = Version (UpgradeItem_Provider i))
         (Providers planSameVersion)
  ∧ drained (trace (doUpgrade_ "v1alpha4" planSameVersion fleet).1)
    = [core; controlPlane]
  ∧ deleted (trace (doUpgrade_ "v1alpha4" planSameVersion fleet).1)
    = [core; controlPlane]
  ∧ EvUpdateDeployment
      (mkDeployment "capi-controller-manager" "capi-system" (Some 0%Z) 1%Z)
    ∈ trace (doUpgrade_ "v1alpha4" planSameVersion fleet).1
  ∧ EvInstall (mkComponents "cluster-api" CoreProviderType "v0.4.2"
                 "capi-system")
    ∈ trace (doUpgrade_ "v1alpha4" planSameVersion fleet).1.
Proof.
  split; [by repeat constructor|].
  split; [vm_compute; reflexivity|].
  split; [vm_compute; reflexivity|].
  split; decide_by_compute.
Qed.

(** [doUpgrade_without_next_version] on the fleet: nothing but the removal
    of the webhook namespace is recorded. *)
Lemma doUpgrade_without_next_version_witness :
  Forall (λ i, NextVersion i = "") (Providers planNoChange)
  ∧ (trace (doUpgrade_ "v1alpha4" planNoChange fleet).1 = []
     ∨ trace (doUpgrade_ "v1alpha4" planNoChange fleet).1
       = [EvDeleteWebhookNamespace])
  ∧ Forall (λ ev, isDrain ev = false ∧ isReplace ev = false)
      (trace (doUpgrade_ "v1alpha4" planNoChange fleet).1)
  ∧ drained (trace (doUpgrade_ "v1alpha4" planNoChange fleet).1) = []
  ∧ deleted (trace (doUpgrade_ "v1alpha4" planNoChange fleet).1) = [].
Proof.
  assert (Forall (λ i, NextVersion i = "") (Providers planNoChange)) as Hno
    by (by repeat constructor).
  split; [exact Hno|].
  exact (doUpgrade_without_next_version "v1alpha4" Fake.isRetryable
           Fake.upgrader planNoChange fleet Hno).
Defined.

(** The rollout of the plan of contract v1alpha4 on the fleet: the items
    come with the control plane provider first and leave sorted, both
    providers are drained before the first fetch, and the deletes preserve
    namespace, CRDs and inventory. *)
Example doUpgrade_on_the_fleet :
  Providers (doUpgrade_ "v1alpha4" planV1alpha4 fleet).2
  = [mkUpgradeItem core "v0.4.5"; mkUpgradeItem controlPlane "v0.4.5"]
  ∧ outcome (doUpgrade_ "v1alpha4" planV1alpha4 fleet).1 = Ok ()
  ∧ drained (trace (doUpgrade_ "v1alpha4" planV1alpha4 fleet).1)
    = [core; controlPlane]
  ∧ deleteOptions (trace (doUpgrade_ "v1alpha4" planV1alpha4 fleet).1)
    = [ mkDeleteOptions core false false true;
        mkDeleteOptions controlPlane false false true ]
  ∧ Fake.inventory (final (doUpgrade_ "v1alpha4" planV1alpha4 fleet).1)
    = [ mkProvider "kubeadm" ControlPlaneProviderType "v0.4.5"
          "capi-kubeadm-control-plane-system";
        mkProvider "cluster-api" CoreProviderType "v0.4.5" "capi-system" ].
Proof. repeat split; vm_compute; reflexivity. Qed.

End OnTheFleet.

(* ------------------------------------------------------------------ *)
(** ** More on the plan builder *)

Section PlanShape.

Context {W ConfigProvider RepositoryClient : Type}.
Variable versionTag : option SemVersion → string.
Variable u : providerUpgrader W ConfigProvider RepositoryClient.

(** The item [getUpgradePlan] builds for a provider. *)
#[local] Abbreviation itemFor w contract :=
  (λ (provider : Provider) (item : UpgradeItem),
     ∃ info,
       getUpgradeInfo u w provider = Ok info
       ∧ item = {| UpgradeItem_Provider := provider;
                   NextVersion :=
                     versionTag (getLatestNextVersion info contract) |}).

Lemma getUpgradePlan_loop_Ok (w : W) (providers : list Provider)
    (contract : string) (acc out : list UpgradeItem) :
  getUpgradePlan_loop versionTag u w providers contract acc = Ok out
  ↔ ∃ items, out = acc ++ items ∧ Forall2 (itemFor w contract) providers items.
Proof.
  revert acc. induction providers as [|p ps IH]; intros acc; simpl.
  - split.
    + intros [= <-]. exists []. by rewrite app_nil_r.
    + intros (items & -> & Hall). apply Forall2_nil_inv_l in Hall as ->.
      by rewrite app_nil_r.
  - destruct (getUpgradeInfo u w p) as [info|e] eqn:Hinfo; simpl.
    + rewrite IH. split.
      * intros (items & -> & Hall). eexists (_ :: items).
        rewrite <- app_assoc. split; [done|].
        constructor; [by exists info|done].
      * intros (items & -> & Hall).
        apply Forall2_cons_inv_l in Hall
          as (i & items' & (info' & Hinfo' & ->) & Hall & ->).
        rewrite Hinfo in Hinfo'. injection Hinfo' as <-.
        exists items'. by rewrite <- app_assoc.
    + split; [done|]. intros (items & _ & Hall).
      apply Forall2_cons_inv_l in Hall as (i & ? & (info & Hinfo' & _) & _).
      by rewrite Hinfo in Hinfo'.
Qed.

Lemma getUpgradePlan_loop_Err (w : W) (providers : list Provider)
    (contract : string) (acc : list UpgradeItem) (e : error) :
  getUpgradePlan_loop versionTag u w providers contract acc = Err e
  ↔ ∃ pre p post,
      providers = pre ++ p :: post
      ∧ Forall (λ q, ∃ info, getUpgradeInfo u w q = Ok info) pre
      ∧ getUpgradeInfo u w p = Err e.
Proof.
  revert acc. induction providers as [|p ps IH]; intros acc; simpl.
  - split; [done|]. intros (pre & q & post & Heq & _).
    by destruct pre.
  - destruct (getUpgradeInfo u w p) as [info|e'] eqn:Hinfo; simpl.
    + rewrite IH. split.
      * intros (pre & q & post & -> & Hpre & Hq).
        exists (p :: pre), q, post. split; [done|].
        split; [constructor; [by exists info|done]|done].
      * intros (pre & q & post & Heq & Hpre & Hq).
        destruct pre as [|p' pre]; simpl in Heq; injection Heq as -> ->.
        -- by rewrite Hinfo in Hq.
        -- exists pre, q, post. split; [done|].
           split; [by inversion Hpre|done].
    + split.
      * intros [= <-]. exists [], p, ps. by repeat split.
      * intros (pre & q & post & Heq & Hpre & Hq).
        destruct pre as [|p' pre]; simpl in Heq; injection Heq as -> ->.
        -- rewrite Hinfo in Hq. by injection Hq as ->.
        -- inversion Hpre as [|? ? [info Hp] ?]. by rewrite Hinfo in Hp.
Qed.

Lemma itemFor_unique (w : W) (contract : string) (providers : list Provider)
    (l1 l2 : list UpgradeItem) :
  Forall2 (itemFor w contract) providers l1 →
  Forall2 (itemFor w contract) providers l2 →
  l1 = l2.
Proof.
  intros Hall. revert l2.
  induction Hall as [|p i ps l1 (info & Hinfo & ->) _ IH]; intros l2 Hall'.
  - by apply Forall2_nil_inv_l in Hall' as ->.
  - apply Forall2_cons_inv_l in Hall'
      as (i' & l2' & (info' & Hinfo' & ->) & Hall' & ->).
    rewrite Hinfo in Hinfo'. injection Hinfo' as <-.
    f_equal. by apply IH.
Qed.

(** X1.  [getUpgradePlan] succeeds exactly when the upgrade info of every
    provider is available; the plan it returns then carries the contract
    asked for and one item per provider, in the order of the providers, each
    with the provider itself and the tag of the latest next version of the
    contract.  It fails exactly with the error of the first provider whose
    upgrade info is not available. *)
Theorem getUpgradePlan_items (w : W) (providers : list Provider)
    (contract : string) :
  (∀ plan,
     getUpgradePlan versionTag u w providers contract = Ok plan
     ↔ Contract plan = contract
       ∧ Forall2 (itemFor w contract) providers (Providers plan))
  ∧ (∀ e,
       getUpgradePlan versionTag u w providers contract = Err e
       ↔ ∃ pre p post,
           providers = pre ++ p :: post
           ∧ Forall (λ q, ∃ info, getUpgradeInfo u w q = Ok info) pre
           ∧ getUpgradeInfo u w p = Err e).
Proof.
  unfold getUpgradePlan. split.
  - intros plan.
    destruct (getUpgradePlan_loop versionTag u w providers contract [])
      as [items|e] eqn:Hloop; simpl.
    + apply getUpgradePlan_loop_Ok in Hloop as (items' & -> & Hall).
      split.
      * intros [= <-]. by split.
      * intros [<- Hall']. destruct plan as [c ps]; simpl in *.
        by rewrite (itemFor_unique w c providers items' ps Hall Hall').
    + split; [done|]. intros [_ Hall].
      assert (getUpgradePlan_loop versionTag u w providers contract []
              = Ok ([] ++ Providers plan)) as Hok.
      { apply getUpgradePlan_loop_Ok. by exists (Providers plan). }
      by rewrite Hloop in Hok.
  - intros e. rewrite <- (getUpgradePlan_loop_Err w providers contract []).
    destruct (getUpgradePlan_loop versionTag u w providers contract []);
      simpl; split; intros; (discriminate || congruence).
Qed.

(** What a successful [Plan] has gone through. *)
Lemma Plan_Ok_inv (w : W) (ret : list UpgradePlan) :
  Plan versionTag u w = Ok ret →
  ∃ items coreProvider coreUpgradeInfo candidates,
    providerInventory_List u w = Ok items
    ∧ FilterCore items = [coreProvider]
    ∧ getUpgradeInfo u w coreProvider = Ok coreUpgradeInfo
    ∧ Forall2 (λ contract plan,
                 getUpgradePlan versionTag u w items contract = Ok plan)
              (getContractsForUpgrade coreUpgradeInfo) candidates
    ∧ ret = filter (keptPlan (currentContract coreUpgradeInfo)) candidates.
Proof.
  unfold Plan. intros HPlan.
  destruct (providerInventory_List u w) as [items|e] eqn:HList;
    simpl in HPlan; [|done].
  destruct (FilterCore items) as [|coreProvider [|? ?]] eqn:Hcore;
    [done| |done].
  destruct (getUpgradeInfo u w coreProvider) as [info|e] eqn:Hinfo;
    simpl in HPlan; [|done].
  exists items, coreProvider, info.
  case_bool_decide as Hlen.
  - simpl in HPlan. injection HPlan as <-.
    apply length_zero_iff_nil in Hlen. rewrite Hlen.
    exists []. split; [done|]. split; [done|]. split; [done|].
    split; [constructor|done].
  - apply Plan_loop_spec in HPlan as (candidates & Hall & ->).
    by exists candidates.
Qed.

(** X2.  Every plan [Plan] returns is the plan [getUpgradePlan] builds for
    its contract over the whole inventory: its items are the providers of
    the inventory, one each and in inventory order.  The contracts of the
    returned plans are contracts for upgrade of the core provider, in the
    order [getContractsForUpgrade] gives them. *)
Theorem Plan_covers_the_inventory (w : W) (ret : list UpgradePlan) :
  Plan versionTag u w = Ok ret →
  ∃ items coreProvider coreUpgradeInfo,
    providerInventory_List u w = Ok items
    ∧ FilterCore items = [coreProvider]
    ∧ getUpgradeInfo u w coreProvider = Ok coreUpgradeInfo
    ∧ (Contract <$> ret)
      `sublist_of` getContractsForUpgrade coreUpgradeInfo
    ∧ ∀ plan, plan ∈ ret →
        getUpgradePlan versionTag u w items (Contract plan) = Ok plan
        ∧ UpgradeItem_Provider <$> Providers plan = items.
Proof.
  intros (items & core & info & candidates & HList & Hcore & Hinfo & Hall
          & ->)%Plan_Ok_inv.
  exists items, core, info. repeat (split; [done|]).
  assert (Contract <$> candidates = getContractsForUpgrade info) as Hcs.
  { clear -Hall. induction Hall as [|c plan cs ps Hplan _ IH]; [done|].
    rewrite fmap_cons, IH. f_equal.
    by apply (getUpgradePlan_Contract versionTag u w items). }
  split.
  - rewrite <- Hcs. apply fmap_sublist, sublist_filter.
  - intros plan [_ Hin]%list_elem_of_filter.
    assert (getUpgradePlan versionTag u w items (Contract plan) = Ok plan)
      as Hplan.
    { clear -Hall Hin. induction Hall as [|c p cs ps Hp _ IH].
      - by apply elem_of_nil in Hin.
      - apply elem_of_cons in Hin as [->|Hin]; [|by apply IH].
        by rewrite (getUpgradePlan_Contract versionTag u w items c p Hp). }
    split; [done|].
    apply (getUpgradePlan_items w items (Contract plan)) in Hplan
      as [_ Hitems].
    clear -Hitems. induction Hitems as [|p i ps is' (info & _ & ->) _ IH];
      [done|].
    by rewrite fmap_cons, IH.
Qed.

End PlanShape.

(* ------------------------------------------------------------------ *)
(** ** More on the custom plan validator *)

Section ValidatorAcceptance.

Context {W ConfigProvider RepositoryClient : Type}.
Variable GroupVersion_Version : string.
Variable ParseSemantic : string → result SemVersion.
Variable versionTag : option SemVersion → string.
Variable u : providerUpgrader W ConfigProvider RepositoryClient.

#[local] Abbreviation contractByVersion :=
  (getProviderContractByVersion ParseSemantic u).
#[local] Abbreviation acceptedItem := (acceptedItem ParseSemantic u).
#[local] Abbreviation compliantProvider := (compliantProvider ParseSemantic u).
#[local] Abbreviation validate :=
  (createCustomPlan GroupVersion_Version ParseSemantic u).

(** X3.  [createCustomPlan] accepts a request exactly when the inventory
    lists one core provider, the target version of the core provider
    resolves to the contract of this release, every requested item matches
    a provider of the inventory and resolves to that contract, and every
    provider of the inventory that is not requested is already on it.  The
    plan accepted is then the contract of this release with the requested
    items as given. *)
Theorem createCustomPlan_accepts_iff (w : W) (upgradeItems : list UpgradeItem)
    (plan : UpgradePlan) :
  validate w upgradeItems = Ok plan
  ↔ ∃ items coreProvider,
      providerInventory_List u w = Ok items
      ∧ FilterCore items = [coreProvider]
      ∧ contractByVersion w coreProvider
          (targetCoreProviderVersion_loop coreProvider upgradeItems
             (Version coreProvider))
        = Ok GroupVersion_Version
      ∧ Forall (acceptedItem w items GroupVersion_Version) upgradeItems
      ∧ Forall (compliantProvider w GroupVersion_Version
                  (list_to_set (itemName <$> upgradeItems))) items
      ∧ plan = {| Contract := GroupVersion_Version;
                  Providers := upgradeItems |}.
Proof.
  split.
  - intros Hplan.
    assert (∃ items core tc,
              providerInventory_List u w = Ok items
              ∧ FilterCore items = [core]
              ∧ contractByVersion w core
                  (targetCoreProviderVersion_loop core upgradeItems
                     (Version core)) = Ok tc)
      as (items & core & tc & HList & Hcore & Htc).
    { unfold createCustomPlan in Hplan.
      destruct (providerInventory_List u w) as [items|e]; simpl in Hplan;
        [|done].
      destruct (FilterCore items) as [|core [|? ?]] eqn:Hcore;
        [done| |done].
      destruct (contractByVersion w core _) as [tc|e] eqn:Htc;
        simpl in Hplan; [|done].
      by exists items, core, tc. }
    rewrite (createCustomPlan_resolved _ _ _ _ _ _ _ _ HList Hcore Htc)
      in Hplan.
    case_bool_decide as Hsup; [done|]. subst tc.
    destruct (upgradeItems_loop _ _ _ _ _ _ _ _) as [[plan' names]|e]
      eqn:Hloop; [|done].
    destruct (lagging_loop _ _ _ _ _ _) as [[]|e] eqn:Hlag; [|done].
    injection Hplan as ->.
    apply upgradeItems_loop_Ok in Hloop as (Hacc & HC & HP & ->).
    apply lagging_loop_Ok in Hlag.
    rewrite (left_id_L ∅ (∪)) in Hlag. simpl in *.
    exists items, core. repeat (split; [done|]).
    destruct plan as [c ps]. simpl in *. by subst.
  - intros (items & core & HList & Hcore & Htc & Hacc & Hcomp & ->).
    rewrite (createCustomPlan_resolved _ _ _ _ _ _ _ _ HList Hcore Htc).
    rewrite bool_decide_false by (by intros []).
    pose proof (upgradeItems_loop_accepted ParseSemantic u w items
                  GroupVersion_Version upgradeItems []
                  {| Contract := GroupVersion_Version; Providers := [] |}
                  ∅ Hacc) as Hloop.
    rewrite app_nil_r in Hloop. rewrite Hloop. simpl.
    rewrite (left_id_L ∅ (∪)).
    pose proof (lagging_loop_compliant ParseSemantic u w items []
                  GroupVersion_Version _ Hcomp) as Hlag.
    rewrite app_nil_r in Hlag. by rewrite Hlag.
Qed.

End ValidatorAcceptance.

Section CoreProviderCount.

Context {W ConfigProvider RepositoryClient : Type}.
Variable GroupVersion_Version : string.
Variable ParseSemantic : string → result SemVersion.
Variable versionTag : option SemVersion → string.
Variable u : providerUpgrader W ConfigProvider RepositoryClient.

(** X4.  When the inventory does not list exactly one core provider, both
    [Plan] and [createCustomPlan] fail with the error that tells how many
    core providers were found, whatever the request. *)
Theorem not_exactly_one_core (w : W) (upgradeItems : list UpgradeItem)
    (items : list Provider) :
  providerInventory_List u w = Ok items →
  length (FilterCore items) ≠ 1 →
  Plan versionTag u w = Err (ErrNotOneCore (length (FilterCore items)))
  ∧ createCustomPlan GroupVersion_Version ParseSemantic u w upgradeItems
    = Err (ErrNotOneCore (length (FilterCore items))).
Proof.
  intros HList Hlen. unfold Plan, createCustomPlan. rewrite HList. simpl.
  by destruct (FilterCore items) as [|core [|? ?]].
Qed.

End CoreProviderCount.

(* ------------------------------------------------------------------ *)
(** ** More on the rollout *)

Section RolloutRuns.

Context {W ConfigProvider RepositoryClient : Type}.
Context `{SliceSorter}.
Variable GroupVersion_Version : string.
Variable isRetryable : error → bool.
Variable u : providerUpgrader W ConfigProvider RepositoryClient.

#[local] Abbreviation doUpgrade :=
  (doUpgrade GroupVersion_Version isRetryable u).
#[local] Abbreviation fetchOf i :=
  (EvGetComponents (fetchFor i).1 (fetchFor i).2).
#[local] Abbreviation deleteOf i := (EvDelete (preservingDelete i)).

(** The replacement of one item stops after the fetch, after the delete or
    after the install; it returns no error only when all three were made. *)
Lemma replace_item_run (i : UpgradeItem) (w : W) (m : M W ()) :
  m = (components ← getUpgradeComponents u i;
       _ ← call (EvDelete (preservingDelete i))
              (of_error (providerComponents_Delete u (preservingDelete i)));
       call (EvInstall components)
            (of_error (installComponentsAndUpdateInventory u components))) →
  (∃ e, outcome (m w) = Err e
        ∧ (trace (m w) = [] ∨ trace (m w) = [fetchOf i]
           ∨ trace (m w) = [fetchOf i; deleteOf i]))
  ∨ (∃ c, trace (m w) = [fetchOf i; deleteOf i; EvInstall c]).
Proof.
  intros ->.
  unfold getUpgradeComponents, mbind, M_bind, lookup_, call, of_error,
    go_return, trace, outcome, fetchFor.
  simpl.
  destruct (configClient_Providers_Get u w _ _) as [cfg|e]; simpl;
    [|left; exists e; auto].
  destruct (repositoryClientFactory u w cfg) as [repo|e]; simpl;
    [|left; exists e; auto].
  destruct (Components_Get u repo _ w) as [[c|e] w1]; simpl;
    [|left; exists e; auto].
  destruct (providerComponents_Delete u _ w1) as [[e|] w2]; simpl;
    [left; exists e; auto|].
  destruct (installComponentsAndUpdateInventory u c w2) as [[e|] w3]; simpl;
    right; by exists c.
Qed.

(** Phase B in full: the fetches and the deletes follow the items with a
    next version; installs never outnumber deletes, nor deletes fetches,
    and at most one fetch is without its install; with no error returned,
    every item with a next version was fetched, deleted and installed. *)
Lemma replaceAll_run (ps : list UpgradeItem) (w : W) :
  fetched (trace (replaceAll u ps w)) `prefix_of` (fetchFor <$> withNextVersion ps)
  ∧ length (installed (trace (replaceAll u ps w)))
    ≤ length (deleteOptions (trace (replaceAll u ps w)))
  ∧ length (deleteOptions (trace (replaceAll u ps w)))
    ≤ length (fetched (trace (replaceAll u ps w)))
  ∧ length (fetched (trace (replaceAll u ps w)))
    ≤ length (installed (trace (replaceAll u ps w))) + 1
  ∧ (outcome (replaceAll u ps w) = Ok () →
     fetched (trace (replaceAll u ps w)) = fetchFor <$> withNextVersion ps
     ∧ deleteOptions (trace (replaceAll u ps w))
       = preservingDelete <$> withNextVersion ps
     ∧ length (installed (trace (replaceAll u ps w)))
       = length (withNextVersion ps)).
Proof.
  unfold replaceAll. revert w.
  induction ps as [|i ps IH]; intros w.
  - simpl. split; [apply prefix_nil|].
    split; [lia|]. split; [lia|]. split; [lia|]. done.
  - simpl for_range. rewrite trace_bind, outcome_bind.
    case_bool_decide as Hi.
    + rewrite (withNextVersion_cons_empty _ _ Hi). simpl. apply IH.
    + rewrite (withNextVersion_cons _ _ Hi).
      match goal with
      | |- context [trace (?m w)] =>
          destruct (replace_item_run i w m eq_refl)
            as [(e & He & Ht)|(c & Ht)]
      end.
      * rewrite He.
        destruct Ht as [Ht|[Ht|Ht]]; rewrite Ht; simpl;
          (split; [first [apply prefix_nil|apply prefix_cons, prefix_nil]|]);
          (split; [lia|]; split; [lia|]; split; [lia|]; intros; discriminate).
      * rewrite Ht.
        match goal with
        | |- context [match outcome ?r with _ => _ end] =>
            destruct (outcome r) as [[]|e]
        end.
        -- match goal with
           | |- context [trace (for_range ps _ ?w')] =>
               destruct (IH w') as (IH1 & IH2 & IH3 & IH4 & IH5)
           end.
           simpl. split; [by apply prefix_cons|].
           split; [lia|]. split; [lia|]. split; [lia|].
           intros Hok. destruct (IH5 Hok) as (-> & -> & ->). done.
        -- simpl. split; [apply prefix_cons, prefix_nil|].
           split; [lia|]. split; [lia|]. split; [lia|]. intros; discriminate.
Qed.

(** Calls of a drain are neither fetches, nor deletes, nor installs. *)
Lemma drains_are_no_replacements (t : list Event) :
  Forall (λ ev, isDrain ev = true) t →
  fetched t = [] ∧ deleteOptions t = [] ∧ installed t = []
  ∧ EvDeleteWebhookNamespace ∉ t.
Proof.
  intros Ht. split; [|split; [|split]].
  1-3: apply omap_none_Forall; (eapply Forall_impl; [done|]); by intros [].
  intros Hin. rewrite Forall_forall in Ht. by specialize (Ht _ Hin).
Qed.

(** Calls of Phase B are neither drains nor the removal of the webhook
    namespace. *)
Lemma replacements_are_no_drains (t : list Event) :
  Forall (λ ev, isReplace ev = true) t →
  drained t = [] ∧ EvDeleteWebhookNamespace ∉ t.
Proof.
  intros Ht. split.
  - apply omap_none_Forall. (eapply Forall_impl; [done|]). by intros [].
  - intros Hin. rewrite Forall_forall in Ht. by specialize (Ht _ Hin).
Qed.

Lemma deleteWebhookNamespace_run (upgradePlan : UpgradePlan) (w : W) :
  trace (deleteWebhookNamespace GroupVersion_Version u upgradePlan w)
  = if bool_decide (Contract upgradePlan = GroupVersion_Version)
    then [EvDeleteWebhookNamespace] else [].
Proof.
  unfold deleteWebhookNamespace. case_bool_decide; [|done].
  unfold call, trace. by destruct (of_error _ w).
Qed.

(** The three stages, by the outcomes of the first two. *)
Lemma upgradePhases_run (upgradePlan : UpgradePlan) (ps : list UpgradeItem)
    (w : W) :
  trace (upgradePhases GroupVersion_Version isRetryable u upgradePlan ps w)
  = trace (scaleDownAll isRetryable u ps w)
    ++ match outcome (scaleDownAll isRetryable u ps w) with
       | Err _ => []
       | Ok _ =>
           trace (replaceAll u ps (final (scaleDownAll isRetryable u ps w)))
           ++ match outcome (replaceAll u ps
                               (final (scaleDownAll isRetryable u ps w))) with
              | Err _ => []
              | Ok _ =>
                  if bool_decide (Contract upgradePlan = GroupVersion_Version)
                  then [EvDeleteWebhookNamespace] else []
              end
       end
  ∧ (outcome (upgradePhases GroupVersion_Version isRetryable u upgradePlan
                ps w) = Ok () →
     outcome (scaleDownAll isRetryable u ps w) = Ok ()
     ∧ outcome (replaceAll u ps (final (scaleDownAll isRetryable u ps w)))
       = Ok ()).
Proof.
  unfold upgradePhases. rewrite trace_bind, outcome_bind.
  destruct (outcome (scaleDownAll isRetryable u ps w)) as [[]|e]; [|done].
  rewrite trace_bind, outcome_bind.
  destruct (outcome (replaceAll u ps _)) as [[]|e]; [|done].
  by rewrite deleteWebhookNamespace_run.
Qed.

#[local] Abbreviation sortedItems upgradePlan :=
  (sort_Slice lessByOrder (Providers upgradePlan)).
#[local] Abbreviation sortedPlan upgradePlan :=
  {| Contract := Contract upgradePlan;
     Providers := sortedItems upgradePlan |}.

(** The readings of the calls of the three stages on a slice. *)
Lemma upgradePhases_readings (upgradePlan : UpgradePlan)
    (ps : list UpgradeItem) (w : W) :
  let t := trace (upgradePhases GroupVersion_Version isRetryable u
                    upgradePlan ps w) in
  fetched t `prefix_of` (fetchFor <$> withNextVersion ps)
  ∧ length (installed t) ≤ length (deleteOptions t)
  ∧ length (deleteOptions t) ≤ length (fetched t)
  ∧ length (fetched t) ≤ length (installed t) + 1
  ∧ (outcome (upgradePhases GroupVersion_Version isRetryable u upgradePlan
                ps w) = Ok () →
     drained t = UpgradeItem_Provider <$> withNextVersion ps
     ∧ fetched t = fetchFor <$> withNextVersion ps
     ∧ deleteOptions t = preservingDelete <$> withNextVersion ps
     ∧ length (installed t) = length (withNextVersion ps))
  ∧ (EvDeleteWebhookNamespace ∈ t →
     Contract upgradePlan = GroupVersion_Version
     ∧ ∃ t', t = t' ++ [EvDeleteWebhookNamespace]
             ∧ (EvDeleteWebhookNamespace ∉ t')
             ∧ drained t' = UpgradeItem_Provider <$> withNextVersion ps
             ∧ deleteOptions t' = preservingDelete <$> withNextVersion ps
             ∧ length (installed t') = length (withNextVersion ps))
  ∧ (outcome (upgradePhases GroupVersion_Version isRetryable u upgradePlan
                ps w) = Ok () →
     Contract upgradePlan = GroupVersion_Version →
     EvDeleteWebhookNamespace ∈ t).
Proof.
  destruct (upgradePhases_run upgradePlan ps w) as [Ht Hok].
  intros t. subst t. rewrite Ht. clear Ht.
  destruct (scaleDownAll_spec isRetryable u ps w) as (HA & _ & HAok).
  destruct (drains_are_no_replacements _ HA) as (HAf & HAd & HAi & HAw).
  set (tA := trace (scaleDownAll isRetryable u ps w)) in *.
  destruct (outcome (scaleDownAll isRetryable u ps w)) as [[]|e] eqn:HoA.
  2: { rewrite app_nil_r, HAf, HAd, HAi. simpl.
       split; [apply prefix_nil|]. split; [lia|]. split; [lia|].
       split; [lia|]. split; [by intros [? _]%Hok|].
       split; [done|]. by intros [? _]%Hok. }
  set (wA := final (scaleDownAll isRetryable u ps w)) in *.
  destruct (replaceAll_run ps wA) as (HBf & HB1 & HB2 & HB3 & HBok).
  destruct (replaceAll_spec u ps wA) as [HB _].
  destruct (replacements_are_no_drains _ HB) as [HBd HBw].
  set (tB := trace (replaceAll u ps wA)) in *.
  assert (∀ tC, tC = [] ∨ tC = [EvDeleteWebhookNamespace] →
            fetched (tA ++ tB ++ tC) = fetched tB
            ∧ deleteOptions (tA ++ tB ++ tC) = deleteOptions tB
            ∧ installed (tA ++ tB ++ tC) = installed tB
            ∧ drained (tA ++ tB ++ tC) = drained tA) as Hread.
  { intros tC HC. unfold fetched, deleteOptions, installed, drained in *.
    rewrite !omap_app, HAf, HAd, HAi, HBd.
    by destruct HC as [-> | ->]; simpl; rewrite !app_nil_r. }
  destruct (outcome (replaceAll u ps wA)) as [[]|e] eqn:HoB.
  2: { destruct (Hread [] (or_introl eq_refl)) as (-> & -> & -> & _).
       split; [done|]. split; [done|]. split; [done|]. split; [done|].
       split; [by intros [_ ?]%Hok|].
       rewrite app_nil_r. split; [|by intros [_ ?]%Hok].
       intros [?|?]%elem_of_app; done. }
  destruct (HBok eq_refl) as (HBf' & HBd' & HBi').
  specialize (HAok eq_refl).
  case_bool_decide as HC.
  - destruct (Hread [EvDeleteWebhookNamespace] (or_intror eq_refl))
      as (-> & -> & -> & ->).
    split; [done|]. split; [done|]. split; [done|]. split; [done|].
    split; [done|]. split.
    + intros _. split; [done|]. exists (tA ++ tB).
      rewrite <- app_assoc. split; [done|].
      split; [intros [?|?]%elem_of_app; done|].
      destruct (Hread [] (or_introl eq_refl)) as (_ & Hd & Hi & Hdr).
      rewrite app_nil_r in Hd, Hi, Hdr. by rewrite Hd, Hi, Hdr.
    + intros _ _. rewrite !elem_of_app. right. right. by left.
  - destruct (Hread [] (or_introl eq_refl)) as (-> & -> & -> & ->).
    split; [done|]. split; [done|]. split; [done|]. split; [done|].
    split; [done|]. rewrite app_nil_r. split; [|done].
    intros [?|?]%elem_of_app; done.
Qed.


(** X6.  Whatever happens in [doUpgrade], the fetches follow the items with
    a next version in the order of the sorted slice; installs never
    outnumber deletes, nor deletes fetches, and at most one fetch is left
    without its install: at most one provider is left deleted and not
    installed again. *)
Theorem doUpgrade_leaves_at_most_one_uninstalled (upgradePlan : UpgradePlan)
    (w : W) :
  let t := trace (doUpgrade upgradePlan w).1 in
  fetched t
  `prefix_of` (fetchFor
               <$> withNextVersion (Providers (doUpgrade upgradePlan w).2))
  ∧ length (installed t) ≤ length (deleteOptions t)
  ∧ length (deleteOptions t) ≤ length (fetched t)
  ∧ length (fetched t) ≤ length (installed t) + 1.
Proof.
  rewrite doUpgrade_unfold.
  destruct (if bool_decide _ then _ else _) as [e|].
  { simpl. split; [apply prefix_nil|]. lia. }
  simpl.
  destruct (upgradePhases_readings (sortedPlan upgradePlan)
              (sortedItems upgradePlan) w)
    as (Hf & H1 & H2 & H3 & _).
  done.
Qed.

(** X7.  [doUpgrade] removes the webhook namespace only for a plan of the
    contract of this release, only once and as its last call, after every
    item with a next version has been drained, deleted and installed. *)
Theorem doUpgrade_webhook_cleanup_is_last (upgradePlan : UpgradePlan)
    (w : W) :
  EvDeleteWebhookNamespace ∈ trace (doUpgrade upgradePlan w).1 →
  let items := withNextVersion (Providers (doUpgrade upgradePlan w).2) in
  Contract upgradePlan = GroupVersion_Version
  ∧ ∃ t', trace (doUpgrade upgradePlan w).1
          = t' ++ [EvDeleteWebhookNamespace]
          ∧ (EvDeleteWebhookNamespace ∉ t')
          ∧ drained t' = UpgradeItem_Provider <$> items
          ∧ deleteOptions t' = preservingDelete <$> items
          ∧ length (installed t') = length items.
Proof.
  rewrite doUpgrade_unfold.
  destruct (if bool_decide _ then _ else _) as [e|].
  { simpl. by intros ?%elem_of_nil. }
  simpl. intros Hin.
  destruct (upgradePhases_readings (sortedPlan upgradePlan)
              (sortedItems upgradePlan) w)
    as (_ & _ & _ & _ & _ & Hweb & _).
  exact (Hweb Hin).
Qed.

Lemma withNextVersion_all (items : list UpgradeItem) :
  Forall (λ i, NextVersion i ≠ "") items → withNextVersion items = items.
Proof.
  unfold withNextVersion.
  induction 1 as [|i l Hi _ IH]; [done|].
  rewrite filter_cons_True by done. by f_equal.
Qed.

(** X18.  A plan that [isPartialUpgrade] does not call partial is acted on
    in full: when [doUpgrade] returns no error on it, the providers it
    drained and the components it fetched are those of every item of the
    plan, one each, and every one of them was installed. *)
Theorem doUpgrade_of_a_full_plan (upgradePlan : UpgradePlan) (w : W) :
  isPartialUpgrade upgradePlan = false →
  outcome (doUpgrade upgradePlan w).1 = Ok () →
  let t := trace (doUpgrade upgradePlan w).1 in
  drained t ≡ₚ UpgradeItem_Provider <$> Providers upgradePlan
  ∧ fetched t ≡ₚ fetchFor <$> Providers upgradePlan
  ∧ length (installed t) = length (Providers upgradePlan).
Proof.
  intros Hfull%isPartialUpgrade_loop_false.
  rewrite doUpgrade_unfold.
  destruct (if bool_decide _ then _ else _) as [e|]; [done|].
  simpl. intros Hok.
  destruct (upgradePhases_readings (sortedPlan upgradePlan)
              (sortedItems upgradePlan) w)
    as (_ & _ & _ & _ & Hall & _).
  destruct (Hall Hok) as (Hd & Hf & _ & Hi).
  assert (withNextVersion (sortedItems upgradePlan)
          = sortedItems upgradePlan) as Hsame.
  { apply withNextVersion_all. by rewrite sort_Slice_Permutation. }
  rewrite Hsame in Hd, Hf, Hi.
  rewrite Hd, Hf, Hi.
  split; [by rewrite sort_Slice_Permutation|].
  split; [by rewrite sort_Slice_Permutation|].
  by rewrite sort_Slice_Permutation.
Qed.

End RolloutRuns.

(* ------------------------------------------------------------------ *)
(** ** The entry points *)

Section EntryPoints.

Context {W ConfigProvider RepositoryClient : Type}.
Context `{SliceSorter}.
Variable GroupVersion_Version : string.
Variable ParseSemantic : string → result SemVersion.
Variable versionTag : option SemVersion → string.
Variable isRetryable : error → bool.
Variable u : providerUpgrader W ConfigProvider RepositoryClient.

#[local] Abbreviation applyPlan :=
  (ApplyPlan GroupVersion_Version versionTag isRetryable u).
#[local] Abbreviation applyCustomPlan :=
  (ApplyCustomPlan GroupVersion_Version ParseSemantic isRetryable u).
#[local] Abbreviation validate :=
  (createCustomPlan GroupVersion_Version ParseSemantic u).

(** A plan accepted by [createCustomPlan] is of the contract of this
    release. *)
Lemma createCustomPlan_Ok_Contract (w : W) (upgradeItems : list UpgradeItem)
    (plan : UpgradePlan) :
  validate w upgradeItems = Ok plan → Contract plan = GroupVersion_Version.
Proof.
  unfold createCustomPlan.
  destruct (providerInventory_List u w) as [items|e]; simpl; [|done].
  destruct (FilterCore items) as [|core [|? ?]]; [done| |done].
  destruct (getProviderContractByVersion _ _ _ _ _) as [tc|e]; simpl;
    [|done].
  case_bool_decide as Hsup; [done|]. subst tc.
  destruct (upgradeItems_loop _ _ _ _ _ _ _ _) as [[plan' names]|e]
    eqn:Hloop; simpl; [|done].
  destruct (lagging_loop _ _ _ _ _ _); simpl; [|done].
  intros [= <-].
  by apply upgradeItems_loop_Ok in Hloop as (_ & HC & _).
Qed.

(** When the guard applies and the inventory reports an error, [doUpgrade]
    returns at once. *)
Lemma doUpgrade_guarded (upgradePlan : UpgradePlan) (w : W) (e : error) :
  Contract upgradePlan = GroupVersion_Version →
  providerInventory_CheckSingleProviderInstance u w = Some e →
  (doUpgrade GroupVersion_Version isRetryable u upgradePlan w).1
  = (Err e, w, []).
Proof.
  intros HC He. rewrite doUpgrade_unfold.
  by rewrite bool_decide_true, He by done.
Qed.

(** X8.  [ApplyPlan] refuses every contract other than the contract of this
    release before anything is looked up; and since the plan it builds is
    of the contract it was asked for, the guard of [doUpgrade] always
    applies: when the inventory holds several instances of a provider,
    [ApplyPlan] fails without a single call on the cluster, which is left
    as it was. *)
Theorem ApplyPlan_is_guarded (contract : string) (w : W) :
  (contract ≠ GroupVersion_Version →
   applyPlan contract w
   = (Err (ErrUnsupportedContract GroupVersion_Version contract), w, []))
  ∧ (∀ e,
       providerInventory_CheckSingleProviderInstance u w = Some e →
       trace (applyPlan contract w) = []
       ∧ final (applyPlan contract w) = w
       ∧ ∃ e', outcome (applyPlan contract w) = Err e').
Proof.
  unfold ApplyPlan. split.
  - intros Hne. by rewrite bool_decide_true.
  - intros e He. case_bool_decide as Hc; [by eauto|].
    destruct (providerInventory_List u w) as [items|e1]; [|by eauto].
    destruct (getUpgradePlan versionTag u w items contract) as [plan|e1]
      eqn:Hplan; [|by eauto].
    apply getUpgradePlan_Contract in Hplan.
    rewrite (doUpgrade_guarded plan w e); [by eauto|congruence|done].
Qed.

(** X9.  [ApplyCustomPlan] touches the cluster only for a request that
    [createCustomPlan] accepts: a refused request returns the error of the
    validation, no call made.  And as an accepted plan is of the contract
    of this release, the guard of [doUpgrade] always applies: with several
    instances of a provider in the inventory no call is made either. *)
Theorem ApplyCustomPlan_is_guarded (upgradeItems : list UpgradeItem) (w : W) :
  (∀ e,
     validate w upgradeItems = Err e →
     applyCustomPlan upgradeItems w = (Err e, w, []))
  ∧ (∀ e,
       providerInventory_CheckSingleProviderInstance u w = Some e →
       trace (applyCustomPlan upgradeItems w) = []
       ∧ final (applyCustomPlan upgradeItems w) = w
       ∧ ∃ e', outcome (applyCustomPlan upgradeItems w) = Err e').
Proof.
  unfold ApplyCustomPlan. split.
  - intros e He. by rewrite He.
  - intros e He.
    destruct (validate w upgradeItems) as [plan|e1] eqn:Hplan; [|by eauto].
    apply createCustomPlan_Ok_Contract in Hplan.
    rewrite (doUpgrade_guarded plan w e); [by eauto|done|done].
Qed.

End EntryPoints.

(* ------------------------------------------------------------------ *)
(** ** The drain of a provider *)

Section Drain.

Context {W ConfigProvider RepositoryClient : Type}.
Variable isRetryable : error → bool.
Variable u : providerUpgrader W ConfigProvider RepositoryClient.

Lemma final_bind {A B : Type} (m : M W A) (f : A → M W B) (w : W) :
  final ((m ≫= f) w)
  = match outcome (m w) with
    | Ok a => final (f a (final (m w)))
    | Err _ => final (m w)
    end.
Proof.
  unfold mbind, M_bind, trace, outcome, final.
  destruct (m w) as [[[a|e] w'] t]; simpl; [|done].
  by destruct (f a w') as [[r w''] t'].
Qed.

Lemma final_ret {A : Type} (a : A) (w : W) : final ((mret a : M W A) w) = w.
Proof. reflexivity. Qed.

Lemma wrapf_run {A : Type} (msg : string) (m : M W A) (w : W) :
  trace (wrapf msg m w) = trace (m w)
  ∧ final (wrapf msg m w) = final (m w)
  ∧ (∀ a, outcome (wrapf msg m w) = Ok a ↔ outcome (m w) = Ok a).
Proof.
  unfold wrapf, trace, final, outcome.
  by destruct (m w) as [[[a|e] w'] t].
Qed.

(** A retry that returns no error ends with an attempt that returned no
    error, and leaves the state that attempt left. *)
Lemma retry_loop_Ok (steps : nat) (operation : M W ()) (w : W) :
  outcome (retry_loop isRetryable steps operation w) = Ok () →
  ∃ w1 t0,
    trace (retry_loop isRetryable steps operation w)
    = t0 ++ trace (operation w1)
    ∧ outcome (operation w1) = Ok ()
    ∧ final (operation w1) = final (retry_loop isRetryable steps operation w).
Proof.
  revert w. induction steps as [|n IH]; intros w; simpl; [done|].
  unfold outcome, final, trace in *.
  destruct (operation w) as [[[[]|e] w'] t] eqn:Hop; simpl.
  - intros _. exists w, []. by rewrite Hop.
  - destruct (isRetryable e && bool_decide (n ≠ 0)); simpl; [|done].
    specialize (IH w').
    destruct (retry_loop isRetryable n operation w') as [[r w''] t'].
    simpl in *. intros Hok. destruct (IH Hok) as (w1 & t0 & -> & ? & ?).
    exists w1, (t ++ t0). by rewrite <- app_assoc.
Qed.

(** A retry makes at most as many attempts as the backoff has steps. *)
Lemma retry_loop_bound (k steps : nat) (operation : M W ()) (w : W) :
  (∀ w, length (trace (operation w)) ≤ k) →
  length (trace (retry_loop isRetryable steps operation w)) ≤ steps * k.
Proof.
  intros Hk. revert w. induction steps as [|n IH]; intros w; simpl; [lia|].
  specialize (Hk w). unfold trace in *.
  destruct (operation w) as [[[[]|e] w'] t]; simpl in *; [lia|].
  destruct (isRetryable e && bool_decide (n ≠ 0)); simpl; [|lia].
  specialize (IH w').
  destruct (retry_loop isRetryable n operation w') as [[r w''] t'].
  simpl in *. rewrite length_app. lia.
Qed.

(** A retry whose first attempt returns no error makes no other attempt. *)
Lemma retry_loop_first (steps : nat) (operation : M W ()) (w : W) :
  outcome (operation w) = Ok () →
  trace (retry_loop isRetryable (S steps) operation w) = trace (operation w)
  ∧ outcome (retry_loop isRetryable (S steps) operation w) = Ok ()
  ∧ final (retry_loop isRetryable (S steps) operation w)
    = final (operation w).
Proof.
  simpl. unfold outcome, trace, final.
  by destruct (operation w) as [[[[]|e] w'] t].
Qed.

(** The attempt of the first loop of [scaleDownDeployment], and that of the
    second. *)
#[local] Abbreviation scaleToZero deploy :=
  (deployment ←
     wrapf "failed to get Deployment"
       (call (EvGetDeployment (d_Name deploy) (d_Namespace deploy))
          (client_Get u (d_Name deploy) (d_Namespace deploy)));
   if bool_decide (Spec_Replicas deployment = Some 0%Z) then mret ()
   else
     let deployment :=
       {| d_Name := d_Name deployment;
          d_Namespace := d_Namespace deployment;
          Spec_Replicas := Some 0%Z;
          Status_Replicas := Status_Replicas deployment |} in
     wrapf "failed to update Deployment"
       (call (EvUpdateDeployment deployment)
          (of_error (client_Update u deployment)))).

#[local] Abbreviation waitForZero deploy :=
  (deployment ←
     wrapf "failed to get Deployment"
       (call (EvGetDeployment (d_Name deploy) (d_Namespace deploy))
          (client_Get u (d_Name deploy) (d_Namespace deploy)));
   if bool_decide (Status_Replicas deployment = 0%Z) then mret ()
   else fail (ErrStillHasReplicas (Status_Replicas deployment))).

Lemma scaleDownDeployment_eq (deploy : Deployment) :
  scaleDownDeployment isRetryable u deploy
  = (_ ← wrapf "failed to scale down Deployment"
           (retryWithExponentialBackoff isRetryable newWriteBackoff
              (scaleToZero deploy));
     wrapf "failed to wait until Deployment is scaled down"
       (retryWithExponentialBackoff isRetryable {| Steps := 60 |}
          (waitForZero deploy))).
Proof. reflexivity. Qed.

Lemma get_run (deploy : Deployment) (w : W) :
  trace (wrapf "failed to get Deployment"
           (call (EvGetDeployment (d_Name deploy) (d_Namespace deploy))
              (client_Get u (d_Name deploy) (d_Namespace deploy))) w)
  = [EvGetDeployment (d_Name deploy) (d_Namespace deploy)]
  ∧ final (wrapf "failed to get Deployment"
             (call (EvGetDeployment (d_Name deploy) (d_Namespace deploy))
                (client_Get u (d_Name deploy) (d_Namespace deploy))) w)
    = (client_Get u (d_Name deploy) (d_Namespace deploy) w).2
  ∧ ∀ d, outcome (wrapf "failed to get Deployment"
                   (call (EvGetDeployment (d_Name deploy) (d_Namespace deploy))
                      (client_Get u (d_Name deploy) (d_Namespace deploy))) w)
         = Ok d
         ↔ (client_Get u (d_Name deploy) (d_Namespace deploy) w).1 = Ok d.
Proof.
  unfold wrapf, call, trace, final, outcome.
  by destruct (client_Get u _ _ w) as [[d|e] w'].
Qed.

Lemma scaleDownDeployment_calls (deploy : Deployment) :
  emits (λ ev,
           ev = EvGetDeployment (d_Name deploy) (d_Namespace deploy)
           ∨ ∃ d, ev = EvUpdateDeployment d ∧ Spec_Replicas d = Some 0%Z)
        (scaleDownDeployment isRetryable u deploy).
Proof.
  unfold scaleDownDeployment.
  apply emits_bind; [|intros _]; apply emits_wrapf, emits_retry.
  - apply emits_bind; [apply emits_wrapf, emits_call; by left|].
    intros d. case_bool_decide; [apply emits_ret|].
    apply emits_wrapf, emits_call. right. by eexists.
  - apply emits_bind; [apply emits_wrapf, emits_call; by left|].
    intros d. case_bool_decide; [apply emits_ret|apply emits_fail].
Qed.

(** X10.  [scaleDownDeployment] reads no other deployment than the one it
    was given, by name and namespace, and every object it writes has its
    desired replicas set to zero. *)
Theorem scaleDownDeployment_writes_zero (deploy : Deployment) (w : W) :
  Forall (λ ev,
            ev = EvGetDeployment (d_Name deploy) (d_Namespace deploy)
            ∨ ∃ d, ev = EvUpdateDeployment d ∧ Spec_Replicas d = Some 0%Z)
         (trace (scaleDownDeployment isRetryable u deploy w)).
Proof. apply scaleDownDeployment_calls. Qed.

(** A [scaleDownDeployment] that returns no error has read the
    deployment. *)
Lemma scaleDownDeployment_Ok_reads (deploy : Deployment) (w : W) :
  outcome (scaleDownDeployment isRetryable u deploy w) = Ok () →
  (d_Name deploy, d_Namespace deploy)
  ∈ read (trace (scaleDownDeployment isRetryable u deploy w)).
Proof.
  rewrite scaleDownDeployment_eq, outcome_bind, trace_bind.
  destruct (outcome (wrapf "failed to scale down Deployment" _ w))
    as [[]|e]; [|done].
  set (w0 := final (wrapf "failed to scale down Deployment" _ w)).
  destruct (wrapf_run "failed to wait until Deployment is scaled down"
              (retryWithExponentialBackoff isRetryable {| Steps := 60 |}
                 (waitForZero deploy)) w0) as (-> & _ & Hok).
  intros Hout%Hok.
  change (retryWithExponentialBackoff isRetryable {| Steps := 60 |}
            (waitForZero deploy) w0)
    with (retry_loop isRetryable 60 (waitForZero deploy) w0) in *.
  apply retry_loop_Ok in Hout as (w1 & t0 & -> & _ & _).
  rewrite trace_bind.
  destruct (get_run deploy w1) as (-> & _ & _).
  unfold read. rewrite !omap_app, !elem_of_app.
  right. right. left. simpl. by left.
Qed.

(** The last read of a [scaleDownDeployment] that returns no error. *)
Lemma scaleDownDeployment_Ok_zero (deploy : Deployment) (w : W) :
  outcome (scaleDownDeployment isRetryable u deploy w) = Ok () →
  ∃ w1 d,
    client_Get u (d_Name deploy) (d_Namespace deploy) w1
    = (Ok d, final (scaleDownDeployment isRetryable u deploy w))
    ∧ Status_Replicas d = 0%Z.
Proof.
  rewrite scaleDownDeployment_eq, outcome_bind, final_bind.
  destruct (outcome (wrapf "failed to scale down Deployment" _ w))
    as [[]|e]; [|done].
  set (w0 := final (wrapf "failed to scale down Deployment" _ w)).
  destruct (wrapf_run "failed to wait until Deployment is scaled down"
              (retryWithExponentialBackoff isRetryable {| Steps := 60 |}
                 (waitForZero deploy)) w0) as (_ & -> & Hok).
  intros Hout%Hok. unfold retryWithExponentialBackoff in *.
  apply retry_loop_Ok in Hout as (w1 & _ & _ & Hop & <-).
  exists w1. revert Hop.
  rewrite outcome_bind, final_bind.
  destruct (get_run deploy w1) as (_ & Hfin & Hget).
  destruct (outcome (wrapf "failed to get Deployment" _ w1)) as [d|e] eqn:Hd;
    [|done].
  pose proof (proj1 (Hget d) eq_refl) as Hd'.
  case_bool_decide as Hzero; [|done].
  intros _. exists d. split; [|done].
  rewrite final_ret, Hfin.
  destruct (client_Get u (d_Name deploy) (d_Namespace deploy) w1)
    as [r w2]. simpl in *. by rewrite Hd'.
Qed.

(** X11.  [scaleDownDeployment] returns no error only after a read of the
    deployment that showed no replica left in its status, and it leaves the
    cluster as that read left it. *)
Theorem scaleDownDeployment_waits_for_zero (deploy : Deployment) (w : W) :
  outcome (scaleDownDeployment isRetryable u deploy w) = Ok () →
  ∃ w1 d,
    client_Get u (d_Name deploy) (d_Namespace deploy) w1
    = (Ok d, final (scaleDownDeployment isRetryable u deploy w))
    ∧ Status_Replicas d = 0%Z.
Proof.
  intros Hok. destruct (scaleDownDeployment_Ok_zero deploy w Hok)
    as (w1 & d & Hget & Hzero).
  by exists w1, d.
Qed.

(** X12.  [scaleDownDeployment] is bounded: at most one read and one write
    for each step of the write backoff, then at most sixty reads. *)
Theorem scaleDownDeployment_is_bounded (deploy : Deployment) (w : W) :
  length (trace (scaleDownDeployment isRetryable u deploy w))
  ≤ 2 * Steps newWriteBackoff + 60.
Proof.
  rewrite scaleDownDeployment_eq, trace_bind.
  destruct (wrapf_run "failed to scale down Deployment"
              (retryWithExponentialBackoff isRetryable newWriteBackoff
                 (scaleToZero deploy)) w) as (-> & _ & _).
  assert (length (trace (retryWithExponentialBackoff isRetryable
                           newWriteBackoff (scaleToZero deploy) w))
          ≤ Steps newWriteBackoff * 2) as H1.
  { apply retry_loop_bound. intros w'. rewrite trace_bind.
    destruct (get_run deploy w') as (-> & _ & _).
    destruct (outcome _) as [d|e]; [|simpl; lia].
    case_bool_decide; [simpl; lia|]. cbv zeta.
    match goal with
    | |- context [trace (wrapf ?msg ?m ?w0)] =>
        destruct (wrapf_run msg m w0) as (-> & _ & _)
    end.
    unfold call, trace. destruct (of_error _ _). simpl. lia. }
  rewrite length_app. change (Steps newWriteBackoff) with 10 in *.
  revert H1.
  generalize (length (trace (retryWithExponentialBackoff isRetryable
                               newWriteBackoff (scaleToZero deploy) w))).
  intros n1 H1.
  destruct (outcome _) as [[]|e]; [|simpl length; lia].
  match goal with
  | |- context [trace (wrapf ?msg ?m ?w0)] =>
      destruct (wrapf_run msg m w0) as (-> & _ & _)
  end.
  match goal with
  | |- context [trace (retryWithExponentialBackoff _ _ _ ?w0)] =>
      assert (length (trace (retryWithExponentialBackoff isRetryable
                               {| Steps := 60 |} (waitForZero deploy) w0))
              ≤ 60 * 1) as H2
  end.
  { apply retry_loop_bound. intros w'. rewrite trace_bind.
    destruct (get_run deploy w') as (-> & _ & _).
    destruct (outcome _) as [d|e]; [|simpl; lia].
    case_bool_decide; simpl; lia. }
  lia.
Qed.

(** X13.  When the first read shows the desired replicas already at zero,
    [scaleDownDeployment] writes nothing: it only waits for the status. *)
Theorem scaleDownDeployment_already_scaled_down (deploy d : Deployment)
    (w : W) :
  (client_Get u (d_Name deploy) (d_Namespace deploy) w).1 = Ok d →
  Spec_Replicas d = Some 0%Z →
  updated (trace (scaleDownDeployment isRetryable u deploy w)) = [].
Proof.
  intros Hget Hzero.
  rewrite scaleDownDeployment_eq, trace_bind.
  destruct (wrapf_run "failed to scale down Deployment"
              (retryWithExponentialBackoff isRetryable newWriteBackoff
                 (scaleToZero deploy)) w) as (-> & _ & _).
  assert (outcome (scaleToZero deploy w) = Ok ()
          ∧ trace (scaleToZero deploy w)
            = [EvGetDeployment (d_Name deploy) (d_Namespace deploy)])
    as [Hok Ht].
  { rewrite outcome_bind, trace_bind.
    destruct (get_run deploy w) as (-> & _ & Hd).
    apply Hd in Hget. rewrite Hget.
    by rewrite bool_decide_true by done. }
  destruct (retry_loop_first 9 (scaleToZero deploy) w Hok) as (Htr & _ & _).
  change (retryWithExponentialBackoff isRetryable newWriteBackoff
            (scaleToZero deploy) w)
    with (retry_loop isRetryable 10 (scaleToZero deploy) w).
  rewrite Htr, Ht. clear Htr Ht Hok. unfold updated. rewrite omap_app. simpl.
  apply omap_none_Forall.
  match goal with
  | |- Forall _ (match ?o with _ => _ end) => destruct o; [|constructor]
  end.
  assert (emits (W:=W) (A:=())
            (λ ev, ev = EvGetDeployment (d_Name deploy) (d_Namespace deploy))
            (wrapf "failed to wait until Deployment is scaled down"
               (retryWithExponentialBackoff isRetryable {| Steps := 60 |}
                  (waitForZero deploy)))) as Hwait.
  { apply emits_wrapf, emits_retry.
    apply emits_bind; [by apply emits_wrapf, emits_call|].
    intros d'. case_bool_decide; [apply emits_ret|apply emits_fail]. }
  eapply Forall_impl; [apply Hwait|]. by intros ? ->.
Qed.

#[local] Abbreviation keyOf := (λ d : Deployment, (d_Name d, d_Namespace d)).

Lemma read_calls (deploy : Deployment) (t : list Event) :
  Forall (λ ev,
            ev = EvGetDeployment (d_Name deploy) (d_Namespace deploy)
            ∨ ∃ d, ev = EvUpdateDeployment d ∧ Spec_Replicas d = Some 0%Z)
         t →
  Forall (λ k, k = keyOf deploy) (read t).
Proof.
  induction 1 as [|ev t [->|(d & -> & _)] _ IH]; simpl; [done| |done].
  by constructor.
Qed.

(** The loop of [scaleDownProvider] over the deployments listed. *)
Lemma scaleDownDeployments_reads (ds : list Deployment) (w : W) :
  Forall (λ k, k ∈ keyOf <$> ds)
         (read (trace (for_range ds (scaleDownDeployment isRetryable u) w)))
  ∧ (outcome (for_range ds (scaleDownDeployment isRetryable u) w) = Ok () →
     ∀ d, d ∈ ds →
       keyOf d
       ∈ read (trace (for_range ds (scaleDownDeployment isRetryable u) w))).
Proof.
  revert w. induction ds as [|d ds IH]; intros w; simpl.
  - split; [constructor|]. intros _ d Hd. by apply elem_of_nil in Hd.
  - rewrite trace_bind, outcome_bind. unfold read. rewrite omap_app.
    fold (read (trace (scaleDownDeployment isRetryable u d w))).
    pose proof (read_calls d _ (scaleDownDeployment_calls d w)) as Hd.
    pose proof (scaleDownDeployment_Ok_reads d w) as Hread.
    destruct (outcome (scaleDownDeployment isRetryable u d w)) as [[]|e].
    + destruct (IH (final (scaleDownDeployment isRetryable u d w)))
        as [IH1 IH2].
      split.
      * apply Forall_app. split.
        -- eapply Forall_impl; [exact Hd|]. intros k ->. by left.
        -- eapply Forall_impl; [exact IH1|]. intros k Hk. by right.
      * intros Hok d' [->|Hin]%elem_of_cons; apply elem_of_app.
        -- left. by apply Hread.
        -- right. by apply IH2.
    + split; [|done]. simpl. rewrite app_nil_r.
      eapply Forall_impl; [exact Hd|]. intros k ->. by left.
Qed.

(** The loop of [scaleDownProvider], when it returns no error, has run a
    [scaleDownDeployment] that returned no error on every deployment: the
    calls of that run are part of the calls of the loop. *)
Lemma scaleDownDeployments_runs (ds : list Deployment) (w : W) :
  outcome (for_range ds (scaleDownDeployment isRetryable u) w) = Ok () →
  ∀ d, d ∈ ds →
    ∃ w0 t1 t2,
      trace (for_range ds (scaleDownDeployment isRetryable u) w)
      = t1 ++ trace (scaleDownDeployment isRetryable u d w0) ++ t2
      ∧ outcome (scaleDownDeployment isRetryable u d w0) = Ok ().
Proof.
  revert w. induction ds as [|d ds IH]; intros w; simpl.
  - intros _ d Hd. by apply elem_of_nil in Hd.
  - rewrite trace_bind, outcome_bind.
    destruct (outcome (scaleDownDeployment isRetryable u d w))
      as [[]|e] eqn:Hd; [|done].
    intros Hok d' [->|Hin]%elem_of_cons.
    + exists w, [], (trace (for_range ds (scaleDownDeployment isRetryable u)
                             (final (scaleDownDeployment isRetryable u d w)))).
      by split.
    + destruct (IH _ Hok d' Hin) as (w0 & t1 & t2 & Ht & Hout).
      exists w0, (trace (scaleDownDeployment isRetryable u d w) ++ t1), t2.
      split; [|done]. by rewrite Ht, <- app_assoc.
Qed.

(** X14.  [scaleDownProvider] makes no call when the proxy cannot create a
    client, and none after a failed listing.  Otherwise it reads only
    deployments that the listing returned, and when it returns no error it
    has scaled down every one of them: for each deployment listed, its
    calls include those of a [scaleDownDeployment] on that deployment that
    returned no error, after a read of the deployment that showed no
    replica left in its status. *)
Theorem scaleDownProvider_scope (provider : Provider) (w : W) :
  (∀ e,
     proxy_NewClient u w = Some e →
     scaleDownProvider isRetryable u provider w
     = (Err e, w, [EvScalingDown provider]))
  ∧ (∀ e,
       proxy_NewClient u w = None →
       (client_List u provider w).1 = Err e →
       outcome (scaleDownProvider isRetryable u provider w)
       = Err (ErrWrap "failed to list Deployments for provider" e)
       ∧ trace (scaleDownProvider isRetryable u provider w)
         = [EvScalingDown provider; EvListDeployments provider])
  ∧ (∀ ds,
       proxy_NewClient u w = None →
       (client_List u provider w).1 = Ok ds →
       Forall (λ k, k ∈ keyOf <$> ds)
              (read (trace (scaleDownProvider isRetryable u provider w)))
       ∧ (outcome (scaleDownProvider isRetryable u provider w) = Ok () →
          ∀ d, d ∈ ds →
            keyOf d
            ∈ read (trace (scaleDownProvider isRetryable u provider w))
            ∧ ∃ w0 t1 t2 w1 d',
                trace (scaleDownProvider isRetryable u provider w)
                = t1 ++ trace (scaleDownDeployment isRetryable u d w0) ++ t2
                ∧ outcome (scaleDownDeployment isRetryable u d w0) = Ok ()
                ∧ client_Get u (d_Name d) (d_Namespace d) w1
                  = (Ok d',
                     final (scaleDownDeployment isRetryable u d w0))
                ∧ Status_Replicas d' = 0%Z)).
Proof.
  unfold scaleDownProvider. split; [|split].
  - intros e He.
    unfold mbind, M_bind, log_Info, lookup_, go_return. by rewrite He.
  - intros e Hnew Hlist.
    unfold mbind, M_bind, log_Info, lookup_, go_return, wrapf, call,
      outcome, trace.
    rewrite Hnew. destruct (client_List u provider w) as [r w1].
    simpl in Hlist. by subst r.
  - intros ds Hnew Hlist.
    destruct (scaleDownDeployments_reads ds (client_List u provider w).2)
      as [H1 H2].
    pose proof (scaleDownDeployments_runs ds (client_List u provider w).2)
      as H3.
    assert (trace ((_ ← log_Info (EvScalingDown provider);
                    _ ← lookup_ (λ w, go_return () (proxy_NewClient u w));
                    deploymentList ←
                      wrapf "failed to list Deployments for provider"
                        (call (EvListDeployments provider)
                           (client_List u provider));
                    for_range deploymentList
                      (scaleDownDeployment isRetryable u)) w)
            = EvScalingDown provider :: EvListDeployments provider
              :: trace (for_range ds (scaleDownDeployment isRetryable u)
                          (client_List u provider w).2)
            ∧ outcome ((_ ← log_Info (EvScalingDown provider);
                        _ ← lookup_ (λ w, go_return () (proxy_NewClient u w));
                        deploymentList ←
                          wrapf "failed to list Deployments for provider"
                            (call (EvListDeployments provider)
                               (client_List u provider));
                        for_range deploymentList
                          (scaleDownDeployment isRetryable u)) w)
              = outcome (for_range ds (scaleDownDeployment isRetryable u)
                           (client_List u provider w).2)) as [-> ->].
    { unfold mbind, M_bind, log_Info, lookup_, go_return, wrapf, call,
        trace, outcome.
      rewrite Hnew. destruct (client_List u provider w) as [r w1].
      simpl in Hlist. subst r. simpl.
      by destruct (for_range ds (scaleDownDeployment isRetryable u) w1)
        as [[r w2] t]. }
    split; [done|]. intros Hok d Hd.
    split; [by apply H2|].
    destruct (H3 Hok d Hd) as (w0 & t1 & t2 & Ht & Hout).
    destruct (scaleDownDeployment_Ok_zero d w0 Hout)
      as (w1 & d' & Hget & Hzero).
    exists w0, (EvScalingDown provider :: EvListDeployments provider :: t1),
      t2, w1, d'.
    split; [by rewrite Ht|]. done.
Qed.

End Drain.

(* ------------------------------------------------------------------ *)
(** ** The manifests downloader *)

Section DownloaderFacts.

Import Downloader.

Context {W Repository : Type}.
Variable wrapPhaseError : derror → string → string → derror.
Variable PreflightCheckCondition : string.
Variable ComponentsFetchErrorReason : string.
Variable metadataFile : string.
Variable p : phaseReconciler W Repository.

#[local] Abbreviation download :=
  (downloadManifests wrapPhaseError PreflightCheckCondition
     ComponentsFetchErrorReason metadataFile p).
#[local] Abbreviation labels := (prepareConfigMapLabels p).
#[local] Abbreviation custom :=
  (usesCustomConfigMap (GetSpec (provider p))).


Ltac run_download :=
  unfold downloadManifests, checkConfigMapExists, createManifestsConfigMap,
    mbind, D_bind, mret, D_ret, mapErr, reading, writing, lookup, dfail,
    dtrace, dfinal, doutcome;
  simpl.

(** Runs the downloader on what is known of the collaborators. *)
Ltac run_known :=
  run_download;
  repeat match goal with
         | H : ?l = ?r |- context [?l] => rewrite H; simpl
         end.

(** X15.  [downloadManifests] fetches nothing and creates nothing, and
    leaves the cluster as it is, in four cases: a custom config map
    selector is set (not even a listing is made); exactly one config map
    carries the labels of the provider; several do, which is an error of
    the preflight check; or the listing fails, which is one too. *)
Theorem downloadManifests_without_download (w : W) :
  (custom = true → download w = (ROk Result_zero, w, []))
  ∧ (custom = false →
     (∀ cm,
        ctrlClient_List p labels w = ROk [cm] →
        download w = (ROk Result_zero, w, [CallList labels]))
     ∧ (∀ l,
          ctrlClient_List p labels w = ROk l → 1 < length l →
          download w
          = (RErr (wrapPhaseError
                     (Errorf "more than one config maps were found for given selector: %v")
                     "failed to check that config map with manifests exists"
                     PreflightCheckCondition),
             w, [CallList labels]))
     ∧ (∀ e,
          ctrlClient_List p labels w = RErr e →
          download w
          = (RErr (wrapPhaseError
                     (ErrorfW "failed to list ConfigMaps" e)
                     "failed to check that config map with manifests exists"
                     PreflightCheckCondition),
             w, [CallList labels]))).
Proof.
  split.
  - intros Hc. unfold downloadManifests. by rewrite Hc.
  - intros Hc. split; [|split].
    + intros cm Hl. run_download. by rewrite Hc, Hl.
    + intros l Hl Hlen. run_download. rewrite Hc, Hl. simpl.
      by rewrite bool_decide_true.
    + intros e Hl. run_download. by rewrite Hc, Hl.
Qed.




Lemma downloadManifests_found (w : W) (cm : ConfigMap) :
  custom = false →
  ctrlClient_List p labels w = ROk [cm] →
  download w = (ROk Result_zero, w, [CallList labels]).
Proof. intros Hc Hl. run_download. by rewrite Hc, Hl. Qed.

(** X17.  With a client for which a config map just created is what the
    next listing by labels it carries returns, when none was returned
    before, [downloadManifests] is idempotent: after a run that returned no
    error, a second run fetches nothing, creates nothing and leaves the
    cluster as the first run left it. *)
Theorem downloadManifests_is_idempotent (w : W) (r : Result) :
  (∀ cm w0 w1 selector,
     ctrlClient_Create p cm w0 = (None, w1) →
     ctrlClient_List p selector w0 = ROk [] →
     selector ⊆ cm_Labels cm →
     ctrlClient_List p selector w1 = ROk [cm]) →
  doutcome (download w) = ROk r →
  r = Result_zero
  ∧ download (dfinal (download w))
    = (ROk Result_zero, dfinal (download w),
       if custom then [] else [CallList labels]).
Proof.
  intros Hlaw.
  destruct custom eqn:Hc.
  { unfold downloadManifests. rewrite Hc. simpl.
    unfold doutcome, dfinal, mret, D_ret. simpl. by intros [= <-]. }
  destruct (ctrlClient_List p labels w) as [l|e] eqn:Hl.
  2: { run_known. done. }
  destruct l as [|cm [|cm' l]].
  - destruct (repositoryFactory p w) as [repo|e] eqn:Hrepo.
    2: { run_known. done. }
    destruct (repo_GetFile p repo (options_Version p) metadataFile w)
      as [metadata|e] eqn:Hm.
    2: { run_known. done. }
    destruct (repo_GetFile p repo (options_Version p)
                (repo_ComponentsPath p repo) w) as [components|e] eqn:Hcomp.
    2: { run_known. done. }
    destruct (ctrlClient_Create p (manifestsConfigMap p metadata components)
                w) as [[e|] w1] eqn:Hcreate.
    { run_known. done. }
    assert (download w
            = (ROk Result_zero, w1,
               [ CallList labels;
                 CallGetFile (options_Version p) metadataFile;
                 CallGetFile (options_Version p) (repo_ComponentsPath p repo);
                 CallCreate (manifestsConfigMap p metadata components) ]))
      as ->.
    { run_known. done. }
    unfold doutcome, dfinal. simpl. intros [= <-]. split; [done|].
    apply (downloadManifests_found w1
             (manifestsConfigMap p metadata components) Hc).
    by apply (Hlaw _ w).
  - rewrite (downloadManifests_found w cm Hc Hl).
    unfold doutcome, dfinal. simpl. intros [= <-]. split; [done|].
    by apply (downloadManifests_found w cm).
  - run_known. done.
Qed.

(** X19.  When no config map carries the labels of the provider yet,
    [downloadManifests] creates nothing from a fetch that failed: a
    repository that cannot be built, a metadata file or a components file
    that cannot be read each end the run with the error of the phase, the
    cluster left as it was and no later call made; the components file is
    not asked for when the metadata file could not be read.  A create that
    fails is reported the same way, with the state the client left. *)
Theorem downloadManifests_fetch_failures (w : W) :
  custom = false →
  ctrlClient_List p labels w = ROk [] →
  (∀ e,
     repositoryFactory p w = RErr e →
     download w
     = (RErr (wrapPhaseError
                (ErrorfW "failed to create repo from provider url for provider %q" e)
                ComponentsFetchErrorReason PreflightCheckCondition),
        w, [CallList labels]))
  ∧ (∀ repo e,
       repositoryFactory p w = ROk repo →
       repo_GetFile p repo (options_Version p) metadataFile w = RErr e →
       download w
       = (RErr (wrapPhaseError
                  (ErrorfW "failed to read %q from the repository for provider %q" e)
                  ComponentsFetchErrorReason PreflightCheckCondition),
          w,
          [CallList labels; CallGetFile (options_Version p) metadataFile]))
  ∧ (∀ repo metadata e,
       repositoryFactory p w = ROk repo →
       repo_GetFile p repo (options_Version p) metadataFile w = ROk metadata →
       repo_GetFile p repo (options_Version p) (repo_ComponentsPath p repo) w
       = RErr e →
       download w
       = (RErr (wrapPhaseError
                  (ErrorfW "failed to read %q from the repository for provider %q" e)
                  ComponentsFetchErrorReason PreflightCheckCondition),
          w,
          [CallList labels; CallGetFile (options_Version p) metadataFile;
           CallGetFile (options_Version p) (repo_ComponentsPath p repo)]))
  ∧ (∀ repo metadata components e w',
       repositoryFactory p w = ROk repo →
       repo_GetFile p repo (options_Version p) metadataFile w = ROk metadata →
       repo_GetFile p repo (options_Version p) (repo_ComponentsPath p repo) w
       = ROk components →
       ctrlClient_Create p (manifestsConfigMap p metadata components) w
       = (Some e, w') →
       download w
       = (RErr (wrapPhaseError
                  (ErrorfW "failed to create config map for provider %q" e)
                  ComponentsFetchErrorReason PreflightCheckCondition),
          w',
          [CallList labels; CallGetFile (options_Version p) metadataFile;
           CallGetFile (options_Version p) (repo_ComponentsPath p repo);
           CallCreate (manifestsConfigMap p metadata components)])).
Proof.
  intros Hc Hl.
  split; [|split; [|split]].
  - intros e He. by run_known.
  - intros repo e Hrepo Hm. by run_known.
  - intros repo metadata e Hrepo Hm Hcomp. by run_known.
  - intros repo metadata components e w' Hrepo Hm Hcomp Hcreate.
    by run_known.
Qed.

End DownloaderFacts.

(* ------------------------------------------------------------------ *)
(** ** More runs on concrete fleets *)

Section MoreOnTheFleet.

Import Scenario.

#[local] Abbreviation upgradeV1alpha4 :=
  (doUpgrade "v1alpha4" Fake.isRetryable Fake.upgrader).

(** [Plan_covers_the_inventory] on the fleet. *)
Lemma Plan_covers_the_inventory_witness :
  Plan Fake.versionTag Fake.upgrader fleet = Ok [planV1alpha4]
  ∧ ∃ items coreProvider coreUpgradeInfo,
      providerInventory_List Fake.upgrader fleet = Ok items
      ∧ FilterCore items = [coreProvider]
      ∧ getUpgradeInfo Fake.upgrader fleet coreProvider = Ok coreUpgradeInfo
      ∧ (Contract <$> [planV1alpha4])
        `sublist_of` getContractsForUpgrade coreUpgradeInfo
      ∧ ∀ plan, plan ∈ [planV1alpha4] →
          getUpgradePlan Fake.versionTag Fake.upgrader fleet items
            (Contract plan) = Ok plan
          ∧ UpgradeItem_Provider <$> Providers plan = items.
Proof.
  assert (Plan Fake.versionTag Fake.upgrader fleet = Ok [planV1alpha4])
    as HPlan by (vm_compute; reflexivity).
  split; [exact HPlan|].
  exact (Plan_covers_the_inventory Fake.versionTag Fake.upgrader fleet
           [planV1alpha4] HPlan).
Defined.

(** [not_exactly_one_core] on the inventory without a core provider. *)
Lemma not_exactly_one_core_witness :
  Plan Fake.versionTag Fake.upgrader fleetNoCore = Err (ErrNotOneCore 0)
  ∧ createCustomPlan v1beta1 Fake.ParseSemantic Fake.upgrader fleetNoCore
      [mkUpgradeItem controlPlane "v0.4.5"]
    = Err (ErrNotOneCore 0).
Proof.
  apply (not_exactly_one_core v1beta1 Fake.ParseSemantic Fake.versionTag
           Fake.upgrader fleetNoCore [mkUpgradeItem controlPlane "v0.4.5"]
           (Fake.inventory fleetNoCore)).
  - reflexivity.
  - vm_compute. lia.
Defined.


(** [doUpgrade_webhook_cleanup_is_last] on the fleet. *)
Lemma doUpgrade_webhook_cleanup_is_last_witness :
  EvDeleteWebhookNamespace ∈ trace (upgradeV1alpha4 planV1alpha4 fleet).1
  ∧ Contract planV1alpha4 = "v1alpha4"
  ∧ ∃ t', trace (upgradeV1alpha4 planV1alpha4 fleet).1
          = t' ++ [EvDeleteWebhookNamespace]
          ∧ (EvDeleteWebhookNamespace ∉ t').
Proof.
  assert (EvDeleteWebhookNamespace
          ∈ trace (upgradeV1alpha4 planV1alpha4 fleet).1) as Hin
    by decide_by_compute.
  split; [exact Hin|].
  destruct (doUpgrade_webhook_cleanup_is_last "v1alpha4" Fake.isRetryable
              Fake.upgrader planV1alpha4 fleet Hin)
    as (HC & t' & Ht & Hnot & _).
  split; [exact HC|]. by exists t'.
Defined.

(** [doUpgrade_of_a_full_plan] on the fleet. *)
Lemma doUpgrade_of_a_full_plan_witness :
  isPartialUpgrade planV1alpha4 = false
  ∧ outcome (upgradeV1alpha4 planV1alpha4 fleet).1 = Ok ()
  ∧ drained (trace (upgradeV1alpha4 planV1alpha4 fleet).1)
    ≡ₚ [controlPlane; core].
Proof.
  assert (outcome (upgradeV1alpha4 planV1alpha4 fleet).1 = Ok ()) as Hok
    by (vm_compute; reflexivity).
  split; [reflexivity|]. split; [exact Hok|].
  exact (proj1 (doUpgrade_of_a_full_plan "v1alpha4" Fake.isRetryable
                  Fake.upgrader planV1alpha4 fleet eq_refl Hok)).
Defined.

(** [scaleDownDeployment_waits_for_zero] on the deployment of the core
    provider. *)
Lemma scaleDownDeployment_waits_for_zero_witness :
  outcome (scaleDownDeployment Fake.isRetryable Fake.upgrader coreDeployment
             fleet) = Ok ()
  ∧ ∃ w1 d,
      client_Get Fake.upgrader (d_Name coreDeployment)
        (d_Namespace coreDeployment) w1
      = (Ok d,
         final (scaleDownDeployment Fake.isRetryable Fake.upgrader
                  coreDeployment fleet))
      ∧ Status_Replicas d = 0%Z.
Proof.
  assert (outcome (scaleDownDeployment Fake.isRetryable Fake.upgrader
                     coreDeployment fleet) = Ok ()) as Hok
    by (vm_compute; reflexivity).
  split; [exact Hok|].
  exact (scaleDownDeployment_waits_for_zero Fake.isRetryable Fake.upgrader
           coreDeployment fleet Hok).
Defined.

(** [scaleDownDeployment_already_scaled_down] on the fleet whose core
    deployment is scaled down. *)
Lemma scaleDownDeployment_already_scaled_down_witness :
  updated (trace (scaleDownDeployment Fake.isRetryable Fake.upgrader
                    scaledDownDeployment fleetScaledDown)) = [].
Proof.
  apply (scaleDownDeployment_already_scaled_down Fake.isRetryable
           Fake.upgrader scaledDownDeployment scaledDownDeployment
           fleetScaledDown).
  - vm_compute; reflexivity.
  - reflexivity.
Defined.

(** On the fleet, the drain of the core provider writes its one deployment
    once and reads it twice. *)
Example scaleDownDeployment_on_the_fleet :
  trace (scaleDownDeployment Fake.isRetryable Fake.upgrader coreDeployment
           fleet)
  = [ EvGetDeployment "capi-controller-manager" "capi-system";
      EvUpdateDeployment
        (mkDeployment "capi-controller-manager" "capi-system" (Some 0%Z) 1%Z);
      EvGetDeployment "capi-controller-manager" "capi-system" ].
Proof. vm_compute; reflexivity. Qed.

End MoreOnTheFleet.

Section DownloaderRuns.

Import Downloader.



(** The client in memory returns a config map just created to the next
    listing by labels it carries. *)
Lemma inMemory_lists_what_it_created (prov : GenericProvider)
    (version : string) (files : string → string → res string)
    (cm : ConfigMap) (w0 w1 : list ConfigMap)
    (selector : gmap string string) :
  ctrlClient_Create (inMemory prov version files) cm w0 = (None, w1) →
  ctrlClient_List (inMemory prov version files) selector w0 = ROk [] →
  selector ⊆ cm_Labels cm →
  ctrlClient_List (inMemory prov version files) selector w1 = ROk [cm].
Proof.
  simpl. intros [= <-] [= Hnone] Hsub.
  by rewrite filter_app, Hnone, filter_cons_True, filter_nil.
Qed.

(** [downloadManifests_is_idempotent] on the empty cluster. *)
Lemma downloadManifests_is_idempotent_witness :
  exampleDownload (dfinal (exampleDownload []))
  = (ROk Result_zero, dfinal (exampleDownload []),
     [CallList (prepareConfigMapLabels exampleReconciler)]).
Proof.
  destruct (downloadManifests_is_idempotent examplePhaseError
              "PreflightCheckPassed" "ComponentsFetchError"
              "metadata.yaml" exampleReconciler [] Result_zero)
    as [_ Hsecond].
  - apply inMemory_lists_what_it_created.
  - vm_compute; reflexivity.
  - exact Hsecond.
Defined.

(** [downloadManifests_fetch_failures] on a release the repository does
    not hold: the metadata file cannot be read, and nothing is created. *)
Lemma downloadManifests_fetch_failures_witness :
  downloadManifests examplePhaseError "PreflightCheckPassed"
    "ComponentsFetchError" "metadata.yaml" missingRelease []
  = (RErr (examplePhaseError
             (ErrorfW "failed to read %q from the repository for provider %q"
                (ErrCollaborator "release not found"))
             "ComponentsFetchError" "PreflightCheckPassed"),
     [],
     [CallList (prepareConfigMapLabels missingRelease);
      CallGetFile "v9.9.9" "metadata.yaml"]).
Proof.
  destruct (downloadManifests_fetch_failures examplePhaseError
              "PreflightCheckPassed" "ComponentsFetchError" "metadata.yaml"
              missingRelease [])
    as (_ & Hmetadata & _).
  - reflexivity.
  - reflexivity.
  - apply (Hmetadata () (ErrCollaborator "release not found"));
      reflexivity.
Defined.

End DownloaderRuns.
